(** * gn-web-tracing-server: the replay viewer's timeline correlation,
      resource classifier, value renderer, marker projector and bundle
      normaliser, embedded from the TypeScript sources.

    Where the code lives under [src/]:
    - [unnamed/part_000] is the network viewer ([getFilterType],
      [NetworkViewer]);
    - [src/frontend/components/VideoPlayer.tsx] holds, after the video
      player, the console viewer ([getLevel], [getFilterLevel],
      [renderRemoteObject], [renderPreview], [ConsoleViewer]) and the
      application ([App]: normalisation of the bundle, [markers]);
    - [unnamed/part_001] holds the type declarations.

    Conventions of the embedding.
    - A JavaScript number is an exact rational [Q]; the only non-finite
      number the modelled code creates is the initial [Infinity] of
      [closestDist], which [jsnum] carries explicitly.
    - A JavaScript string is a [string] of 8-bit characters; URLs, HTML
      markup and the extension table are ASCII.
    - An optional field [f?: T] is an [option T]; [a || b] on strings is
      [or_else], which also skips the empty string as JavaScript does. *)

From Stdlib Require Import List String Ascii Bool Arith ZArith QArith Qabs.
From Stdlib Require Import Lia Lqa Sorted Permutation DecimalString.
From Stdlib Require Import Qround.
Import ListNotations.

Local Open Scope string_scope.
Local Open Scope list_scope.

(** ** JavaScript primitives *)

Module JS.

(** A number that may be [Infinity]. *)
Inductive jsnum : Type :=
| Fin (q : Q)
| Infinity.

Definition Qlt_bool (x y : Q) : bool := negb (Qle_bool y x).

(** [d < n] for a finite [d]. *)
Definition lt_num (d : Q) (n : jsnum) : bool :=
  match n with
  | Infinity => true
  | Fin q => Qlt_bool d q
  end.

(** [n >= c] for a finite [c]. *)
Definition ge_num (n : jsnum) (c : Q) : bool :=
  match n with
  | Infinity => true
  | Fin q => Qle_bool c q
  end.

(** Truthiness of an optional string: absent and empty are falsy. *)
Definition truthy_str (s : option string) : bool :=
  match s with
  | Some s => negb (s =? EmptyString)
  | None => false
  end.

(** [a || b] where [b] is a string. *)
Definition or_else (a : option string) (b : string) : string :=
  match a with
  | Some s => if s =? EmptyString then b else s
  | None => b
  end.

(** [a || b] where [b] is itself optional. *)
Definition or_opt (a b : option string) : option string :=
  if truthy_str a then a else b.

(** Truthiness of an optional number: absent and zero are falsy. *)
Definition truthy_num (n : option Q) : bool :=
  match n with
  | Some q => negb (Qeq_bool q 0)
  | None => false
  end.

(** [s.slice(0, n)]. *)
Fixpoint slice0 (n : nat) (s : string) : string :=
  match n, s with
  | S k, String c r => String c (slice0 k r)
  | _, _ => EmptyString
  end.

(** [s.slice(n)]. *)
Fixpoint slice_from (n : nat) (s : string) : string :=
  match n, s with
  | S k, String _ r => slice_from k r
  | _, _ => s
  end.

(** [s.lastIndexOf(c)], [None] standing for [-1]. *)
Fixpoint lastIndexOf (c : ascii) (s : string) : option nat :=
  match s with
  | EmptyString => None
  | String a r =>
      match lastIndexOf c r with
      | Some i => Some (S i)
      | None => if Ascii.eqb a c then Some 0%nat else None
      end
  end.

Definition lower_char (c : ascii) : ascii :=
  let n := nat_of_ascii c in
  if (65 <=? n)%nat && (n <=? 90)%nat then ascii_of_nat (n + 32) else c.

(** [s.toLowerCase()] on ASCII text. *)
Fixpoint toLowerCase (s : string) : string :=
  match s with
  | EmptyString => EmptyString
  | String c r => String (lower_char c) (toLowerCase r)
  end.

(** [s.replace(/c/g, by)]. *)
Fixpoint replace_all (c : ascii) (by_ : string) (s : string) : string :=
  match s with
  | EmptyString => EmptyString
  | String a r =>
      if Ascii.eqb a c then by_ ++ replace_all c by_ r
      else String a (replace_all c by_ r)
  end.

(** [xs.join(sep)]. *)
Fixpoint join (sep : string) (xs : list string) : string :=
  match xs with
  | [] => EmptyString
  | [x] => x
  | x :: rest => x ++ sep ++ join sep rest
  end.

(** [xs.includes(x)] on strings. *)
Definition includes (xs : list string) (x : string) : bool :=
  existsb (String.eqb x) xs.

(** [haystack.includes(needle)], used below to read rendered text. *)
Fixpoint str_includes (needle haystack : string) : bool :=
  if String.prefix needle haystack then true
  else match haystack with
       | EmptyString => false
       | String _ r => str_includes needle r
       end.

(** [xs.sort(cmp)]: the sort of ECMAScript is stable, so for a
    consistent comparator its result is the one of the stable insertion
    sort: going from the last element to the first, each element is put
    before the first element it does not compare greater than, hence
    before its equals, which came after it. *)
Section Sort.
Context {A : Type}.
Variable cmp : A -> A -> Q.

Fixpoint insert_sorted (x : A) (l : list A) : list A :=
  match l with
  | [] => [x]
  | y :: r =>
      if Qle_bool (cmp x y) 0 then x :: y :: r
      else y :: insert_sorted x r
  end.

Definition sort (l : list A) : list A :=
  fold_right insert_sorted [] l.
End Sort.

(** A comparator that subtracts one numeric field, [(a, b) => a.k - b.k],
    and the order it sorts into. *)
Definition byKey {A : Type} (key : A -> Q) (a b : A) : Q := key a - key b.

Definition ascending {A : Type} (key : A -> Q) (a b : A) : Prop :=
  key a <= key b.

End JS.

(** ** Timeline correlation: the [useMemo] block shared, word for word,
       by [NetworkViewer] and [ConsoleViewer].  The two differ only in
       the entry type and in the category stored with each entry
       ([filterType] from [getFilterType], [filterLevel] from
       [getFilterLevel]). *)

Module Timeline.
Import JS.

Section Viewer.
Context {E : Type}.
Variable relativeMs : E -> Q.
Variable category : E -> string.

(** One element of [processedEntries]. *)
Record Processed : Type := mkProcessed {
  entry : E;
  index : Z;
  filterKey : string
}.

(** [entries.map((e, i) => ({ entry: e, index: i, ... }))]. *)
Fixpoint processFrom (i : nat) (entries : list E) : list Processed :=
  match entries with
  | [] => []
  | e :: rest =>
      {| entry := e; index := Z.of_nat i; filterKey := category e |}
        :: processFrom (S i) rest
  end.

Definition processedEntries (entries : list E) : list Processed :=
  processFrom 0 entries.

(** The two variables the filter callback assigns. *)
Record Closest : Type := mkClosest {
  closestIdx : Z;
  closestDist : jsnum
}.

Definition closest0 : Closest :=
  {| closestIdx := (-1)%Z; closestDist := Infinity |}.

(** One call of the filter callback: the state after it and whether
    the entry is kept. *)
Definition visit (currentTimeMs : Q) (st : Closest) (pe : Processed)
  : Closest * bool :=
  let inTime := Qle_bool (relativeMs (entry pe)) currentTimeMs in
  if negb inTime then (st, false)
  else
    let dist := Qabs (relativeMs (entry pe) - currentTimeMs) in
    if lt_num dist (closestDist st)
    then ({| closestIdx := index pe; closestDist := Fin dist |}, true)
    else (st, true).

(** [processedEntries.filter(callback)], left to right. *)
Fixpoint scan (currentTimeMs : Q) (pes : list Processed) (st : Closest)
  : Closest * list Processed :=
  match pes with
  | [] => (st, [])
  | pe :: rest =>
      let '(st1, keep) := visit currentTimeMs st pe in
      let '(st2, visible) := scan currentTimeMs rest st1 in
      (st2, if keep then pe :: visible else visible)
  end.

Record QueryResult : Type := mkQueryResult {
  closestIndex : Z;
  visibleEntries : list Processed
}.

Definition query (entries : list E) (currentTimeMs : Q)
                 (activeFilter : string) : QueryResult :=
  let '(st, visible) :=
    scan currentTimeMs (processedEntries entries) closest0 in
  let closestIdx' :=
    if ge_num (closestDist st) 1500 then (-1)%Z else closestIdx st in
  let filtered :=
    if activeFilter =? "all" then visible
    else filter (fun pe => filterKey pe =? activeFilter) visible in
  {| closestIndex := closestIdx'; visibleEntries := filtered |}.

(** Vocabulary of the proofs: being in time, and the distance to the
    playback position. *)
Definition inTime (t : Q) (pe : Processed) : bool :=
  Qle_bool (relativeMs (entry pe)) t.

Definition dist (t : Q) (pe : Processed) : Q :=
  Qabs (relativeMs (entry pe) - t).

(** What the two assigned variables hold after the pass: either they
    were never assigned, or they describe the first in-time entry of
    least distance. *)
Definition chosen (t : Q) (pes : list Processed) (st st' : Closest)
  : Prop :=
  (st' = st /\
   forall pe, In pe pes -> inTime t pe = true ->
              lt_num (dist t pe) (closestDist st) = false)
  \/
  (exists k pe,
      nth_error pes k = Some pe /\ inTime t pe = true /\
      st' = {| closestIdx := index pe; closestDist := Fin (dist t pe) |} /\
      lt_num (dist t pe) (closestDist st) = true /\
      (forall pe', In pe' pes -> inTime t pe' = true ->
                   dist t pe <= dist t pe') /\
      (forall j pe', (j < k)%nat -> nth_error pes j = Some pe' ->
                     inTime t pe' = true -> dist t pe < dist t pe')).

End Viewer.

Arguments entry {E} _.
Arguments index {E} _.
Arguments filterKey {E} _.
Arguments closestIndex {E} _.
Arguments visibleEntries {E} _.

End Timeline.

(** ** Data model (the type declarations): the fields the modelled
       functions read *)

(** [value?: unknown] of a captured runtime value. *)
Inductive JSValue : Type :=
| VNull
| VBool (b : bool)
| VInt (z : Z)
| VStr (s : string).

(** [ObjectPreviewValue] and [PropertyPreviewValue] refer to each other. *)
Inductive ObjectPreviewValue : Type :=
| mkPreview (subtype : option string) (description : option string)
            (overflow : option bool)
            (properties : option (list PropertyPreviewValue))
with PropertyPreviewValue : Type :=
| mkProperty (name : string) (type : string) (value : option string)
             (subtype : option string)
             (valuePreview : option ObjectPreviewValue).

Record RemoteObjectValue : Type := mkRemoteObject {
  ro_type : string;
  ro_subtype : option string;
  ro_value : option JSValue;
  ro_description : option string;
  ro_className : option string;
  ro_preview : option ObjectPreviewValue
}.

Record ConsoleLogEntry : Type := mkConsoleLogEntry {
  c_source : option string;
  c_level : option string;
  c_timestamp : Q;
  c_message : option string;
  c_args : option (list (option RemoteObjectValue));
  c_relativeMs : Q
}.

Record Request : Type := mkRequest {
  rq_method : option string;
  rq_url : option string
}.

Record Response : Type := mkResponse {
  rs_status : option Q
}.

Record NetworkLogEntry : Type := mkNetworkLogEntry {
  request : option Request;
  response : option Response;
  n_method : option string;
  n_url : option string;
  n_status : option Q;
  resourceType : option string;
  wallTime : option Q;
  n_timestamp : option Q;
  n_error : option string;
  n_relativeMs : Q
}.

Record TimelineMarker : Type := mkMarker {
  timeMs : Q;
  color : string;
  label : string
}.

(** [{ ...e, relativeMs }]. *)
Definition console_with_relativeMs (e : ConsoleLogEntry) (r : Q)
  : ConsoleLogEntry :=
  {| c_source := c_source e; c_level := c_level e;
     c_timestamp := c_timestamp e; c_message := c_message e;
     c_args := c_args e; c_relativeMs := r |}.

Definition network_with_relativeMs (e : NetworkLogEntry) (r : Q)
  : NetworkLogEntry :=
  {| request := request e; response := response e;
     n_method := n_method e; n_url := n_url e; n_status := n_status e;
     resourceType := resourceType e; wallTime := wallTime e;
     n_timestamp := n_timestamp e; n_error := n_error e;
     n_relativeMs := r |}.

(** [entry.request?.url] and [entry.request?.method]. *)
Definition request_url (e : NetworkLogEntry) : option string :=
  match request e with Some r => rq_url r | None => None end.

Definition request_method (e : NetworkLogEntry) : option string :=
  match request e with Some r => rq_method r | None => None end.

(** [entry.request?.url || entry.url || ""], which the classifier and the
    marker projector both compute. *)
Definition entry_url (e : NetworkLogEntry) : string :=
  JS.or_else (JS.or_opt (request_url e) (n_url e)) EmptyString.

(** ** The platform's URL parser, which the classifier calls and which is
       no code of this repository: [URL_pathname url base] is
       [new URL(url, base).pathname], [None] when the constructor
       throws. *)

Class URLApi : Type := {
  URL_pathname : string -> string -> option string
}.

(** ** Resource classifier (network viewer) *)

Module Classifier.
Import JS.

Definition FILTER_TYPES : list string :=
  ["all"; "fetch"; "js"; "css"; "img"; "doc"; "font"; "media"; "ws";
   "other"].

(** In [Object.entries] order. *)
Definition TYPE_MAP : list (string * list string) :=
  [("fetch", ["XHR"; "Fetch"]);
   ("js", ["Script"]);
   ("css", ["Stylesheet"]);
   ("img", ["Image"]);
   ("doc", ["Document"]);
   ("font", ["Font"]);
   ("media", ["Media"]);
   ("ws", ["WebSocket"])].

Definition STATIC_EXT_MAP : list (string * string) :=
  [(".js", "js"); (".mjs", "js"); (".cjs", "js"); (".map", "js");
   (".css", "css");
   (".png", "img"); (".jpg", "img"); (".jpeg", "img"); (".gif", "img");
   (".svg", "img"); (".webp", "img"); (".ico", "img"); (".avif", "img");
   (".woff", "font"); (".woff2", "font"); (".ttf", "font");
   (".eot", "font"); (".otf", "font");
   (".mp4", "media"); (".webm", "media"); (".mp3", "media");
   (".ogg", "media"); (".wav", "media");
   (".html", "doc"); (".htm", "doc")].

(** [table[key]] on an object used as a map.  Every key looked up
    below starts with a dot, so no inherited property is ever hit. *)
Fixpoint lookup {V : Type} (table : list (string * V)) (key : string)
  : option V :=
  match table with
  | [] => None
  | (k, v) :: rest => if k =? key then Some v else lookup rest key
  end.

(** The [for ... of Object.entries(TYPE_MAP)] loop. *)
Fixpoint first_type (table : list (string * list string))
                    (resourceType : string) : option string :=
  match table with
  | [] => None
  | (filterKey, types) :: rest =>
      if includes types resourceType then Some filterKey
      else first_type rest resourceType
  end.

(** The body of the [try] block: [Some mapped] when it returns. *)
Definition ext_category (pathname : string) : option string :=
  match lastIndexOf "."%char pathname with
  | Some dot =>
      let ext := toLowerCase (slice_from dot pathname) in
      match lookup STATIC_EXT_MAP ext with
      | Some mapped => if truthy_str (Some mapped) then Some mapped else None
      | None => None
      end
  | None => None
  end.

Definition getFilterType `{URLApi} (entry : NetworkLogEntry) : string :=
  let resourceType := or_else (resourceType entry) EmptyString in
  if (resourceType =? "XHR") || (resourceType =? "Fetch") then
    let url := entry_url entry in
    match URL_pathname url "http://x" with
    | Some pathname =>
        match ext_category pathname with
        | Some mapped => mapped
        | None => "fetch"
        end
    | None => "fetch"
    end
  else
    match first_type TYPE_MAP resourceType with
    | Some filterKey => filterKey
    | None => "other"
    end.

End Classifier.

(** ** Console levels (console viewer) *)

Module ConsoleLevels.
Import JS.

Definition FILTER_LEVELS : list string :=
  ["all"; "log"; "warn"; "error"; "info"; "debug"; "exception";
   "browser"].

Definition isNewFormat (entry : ConsoleLogEntry) : bool :=
  match c_source entry with Some _ => true | None => false end.

Definition source_is (entry : ConsoleLogEntry) (s : string) : bool :=
  match c_source entry with Some x => x =? s | None => false end.

Definition getLevel (entry : ConsoleLogEntry) : string :=
  if isNewFormat entry then
    if source_is entry "exception" then "error"
    else if source_is entry "browser" then or_else (c_level entry) "info"
    else or_else (c_level entry) "log"
  else or_else (c_level entry) "log".

Definition getFilterLevel (entry : ConsoleLogEntry) : string :=
  if isNewFormat entry then
    if source_is entry "exception" then "exception"
    else if source_is entry "browser" then "browser"
    else getLevel entry
  else getLevel entry.

End ConsoleLevels.

(** ** The two viewers *)

Module NetworkViewer.
Definition query `{URLApi} (entries : list NetworkLogEntry)
    (currentTimeMs : Q) (activeTypeFilter : string)
  : Timeline.QueryResult :=
  Timeline.query n_relativeMs Classifier.getFilterType
                 entries currentTimeMs activeTypeFilter.
End NetworkViewer.

Module ConsoleViewer.
Definition query (entries : list ConsoleLogEntry)
    (currentTimeMs : Q) (activeFilter : string)
  : Timeline.QueryResult :=
  Timeline.query c_relativeMs ConsoleLevels.getFilterLevel
                 entries currentTimeMs activeFilter.
End ConsoleViewer.

(** ** Structured value renderer (console viewer) *)

Module Renderer.
Import JS.
Local Open Scope string_scope.

(** The double-quote character. *)
Definition dq : string := String (ascii_of_nat 34) EmptyString.

(** [<span class="cls">body</span>]. *)
Definition span (cls body : string) : string :=
  "<span class=" ++ dq ++ cls ++ dq ++ ">" ++ body ++ "</span>".

Definition escapeHtml (str : string) : string :=
  replace_all (ascii_of_nat 34) "&quot;"
    (replace_all ">"%char "&gt;"
       (replace_all "<"%char "&lt;"
          (replace_all "&"%char "&amp;" str))).

(** [String(v)]; integers are printed in decimal, as JavaScript prints
    every integer below 10^21. *)
Definition toString (v : option JSValue) : string :=
  match v with
  | None => "undefined"
  | Some VNull => "null"
  | Some (VBool true) => "true"
  | Some (VBool false) => "false"
  | Some (VInt z) => NilZero.string_of_int (Z.to_int z)
  | Some (VStr s) => s
  end.

(** A template hole holding an optional string. *)
Definition hole (s : option string) : string :=
  match s with Some s => s | None => "undefined" end.

(** [description || value] inside a template. *)
Definition description_or_value (description : option string)
                                (value : option JSValue) : string :=
  if truthy_str description then hole description else toString value.

Definition is_subtype (subtype : option string) (s : string) : bool :=
  match subtype with Some x => x =? s | None => false end.

Fixpoint renderPreview (preview : ObjectPreviewValue)
                       (className : option string) {struct preview}
  : string :=
  match preview with
  | mkPreview subtype _ overflow properties =>
      match properties with
      | None | Some [] =>
          if is_subtype subtype "array" then "[]"
          else if truthy_str className then hole className ++ " {}"
          else "{}"
      | Some props =>
          let isArray := is_subtype subtype "array" in
          let open :=
            if isArray then "["
            else if truthy_str className
                    && negb (hole className =? "Object")
                 then hole className ++ " {"
                 else "{" in
          let close := if isArray then "]" else "}" in
          let rendered :=
            join ", "
              (map (fun p =>
                      let val := renderPreviewValue p in
                      if isArray then val
                      else
                        match p with
                        | mkProperty name _ _ _ _ =>
                            span "text-gh-purple" (escapeHtml name)
                              ++ ": " ++ val
                        end)
                   props) in
          let overflow' :=
            match overflow with Some true => ", ..." | _ => EmptyString end in
          open ++ rendered ++ overflow' ++ close
      end
  end
with renderPreviewValue (prop : PropertyPreviewValue) {struct prop}
  : string :=
  match prop with
  | mkProperty _ type value subtype valuePreview =>
      match valuePreview with
      | Some vp =>
          renderPreview vp
            (match vp with mkPreview _ description _ _ => description end)
      | None =>
          if type =? "string" then
            span "text-gh-blue-str"
                 (dq ++ escapeHtml (or_else value EmptyString) ++ dq)
          else if (type =? "number") || (type =? "bigint") then
            span "text-gh-blue-num" (hole value)
          else if type =? "boolean" then
            span "text-gh-blue-num" (hole value)
          else if type =? "undefined" then
            span "text-gh-secondary" "undefined"
          else if type =? "function" then
            span "text-gh-purple italic" "ƒ"
          else if type =? "object" then
            if is_subtype subtype "null"
            then span "text-gh-secondary" "null"
            else span "text-gh-secondary"
                      (escapeHtml (or_else value "Object"))
          else escapeHtml (or_else value EmptyString)
      end
  end.

Definition renderObjectPreview (obj : RemoteObjectValue) : string :=
  if is_subtype (ro_subtype obj) "null" then
    span "text-gh-secondary" "null"
  else if is_subtype (ro_subtype obj) "error" then
    span "text-gh-error whitespace-pre-wrap"
         (escapeHtml (or_else (ro_description obj) "Error"))
  else if is_subtype (ro_subtype obj) "regexp" then
    span "text-gh-orange"
         (escapeHtml (or_else (ro_description obj) EmptyString))
  else if is_subtype (ro_subtype obj) "date" then
    span "text-gh-blue-str"
         (escapeHtml (or_else (ro_description obj) EmptyString))
  else
    match ro_preview obj with
    | Some preview => renderPreview preview (ro_className obj)
    | None =>
        span "text-gh-secondary"
             (escapeHtml
                (or_else (or_opt (ro_description obj) (ro_className obj))
                         "Object"))
    end.

Definition renderRemoteObject (obj : option RemoteObjectValue) : string :=
  match obj with
  | None => "undefined"
  | Some obj =>
      let type := ro_type obj in
      if type =? "undefined" then
        span "text-gh-secondary" "undefined"
      else if type =? "boolean" then
        span "text-gh-blue-num" (toString (ro_value obj))
      else if type =? "number" then
        span "text-gh-blue-num"
             (description_or_value (ro_description obj) (ro_value obj))
      else if type =? "bigint" then
        span "text-gh-blue-num"
             (description_or_value (ro_description obj) (ro_value obj)
                ++ "n")
      else if type =? "string" then
        span "text-gh-blue-str"
             (escapeHtml
                (match ro_value obj with
                 | Some VNull | None =>
                     or_else (ro_description obj) EmptyString
                 | v => toString v
                 end))
      else if type =? "symbol" then
        span "text-gh-purple"
             (escapeHtml (or_else (ro_description obj) "Symbol()"))
      else if type =? "function" then
        span "text-gh-purple italic"
             ("ƒ " ++ escapeHtml (or_else (ro_description obj) "anonymous"))
      else if type =? "object" then
        renderObjectPreview obj
      else
        escapeHtml
          (description_or_value (ro_description obj) (ro_value obj))
  end.

(** What a reader sees of the markup once the browser has inserted it:
    the text outside the tags. *)
Fixpoint textOutside (inTag : bool) (html : string) : string :=
  match html with
  | EmptyString => EmptyString
  | String c r =>
      if inTag then textOutside (negb (Ascii.eqb c ">"%char)) r
      else if Ascii.eqb c "<"%char then textOutside true r
      else String c (textOutside false r)
  end.

Definition textContent (html : string) : string := textOutside false html.

End Renderer.

(** ** Marker projector and bundle normaliser (application) *)

Module App.
Import JS.
Local Open Scope string_scope.

(** [m.push(x)]. *)
Definition push {A : Type} (m : list A) (x : A) : list A :=
  (m ++ [x])%list.

(** [entry.args?.[0]?.description]. *)
Definition first_arg_description (entry : ConsoleLogEntry)
  : option string :=
  match c_args entry with
  | Some (Some arg :: _) => ro_description arg
  | _ => None
  end.

(** The level the [markers] memo computes for a console entry. *)
Definition marker_level (entry : ConsoleLogEntry) : string :=
  if ConsoleLevels.source_is entry "exception" then "error"
  else if ConsoleLevels.source_is entry "browser"
       then or_else (c_level entry) "info"
       else or_else (c_level entry) "log".

(** [entry.message || entry.args?.[0]?.description || ""]. *)
Definition marker_message (entry : ConsoleLogEntry) : string :=
  or_else (or_opt (c_message entry) (first_arg_description entry))
          EmptyString.

(** The object literal pushed by the first loop. *)
Definition error_marker (entry : ConsoleLogEntry) : TimelineMarker :=
  {| timeMs := c_relativeMs entry;
     color := "#f85149";
     label := "Error: " ++ slice0 80 (marker_message entry) |}.

(** The object literal pushed by the second loop. *)
Definition request_marker (entry : NetworkLogEntry) : TimelineMarker :=
  let url := entry_url entry in
  let method := or_else (or_opt (request_method entry) (n_method entry))
                        "GET" in
  {| timeMs := n_relativeMs entry;
     color := "#58a6ff";
     label := slice0 80 (method ++ " " ++ url) |}.

(** The body of the first [for] loop of the [markers] memo. *)
Definition console_step (m : list TimelineMarker) (entry : ConsoleLogEntry)
  : list TimelineMarker :=
  let level := marker_level entry in
  if level =? "error" then push m (error_marker entry) else m.

(** The body of the second [for] loop. *)
Definition network_step (m : list TimelineMarker) (entry : NetworkLogEntry)
  : list TimelineMarker :=
  push m (request_marker entry).

Definition markers (consoleLogs : list ConsoleLogEntry)
                   (networkRequests : list NetworkLogEntry)
  : list TimelineMarker :=
  let m := [] in
  let m := fold_left console_step consoleLogs m in
  let m := fold_left network_step networkRequests m in
  m.

(** [data.networkRequests]: absent, a flat array, or an object whose
    events may live under [log.entries]. *)
Inductive NetworkData : Type :=
| NdAbsent
| NdArray (entries : list NetworkLogEntry)
| NdObject (log_entries : option (list NetworkLogEntry)).

Definition rawNet (nd : NetworkData) : list NetworkLogEntry :=
  match nd with
  | NdObject (Some entries) => entries
  | NdArray entries => entries
  | _ => []
  end.

(** [data.consoleLogs.map(...).sort(...)], [st] being the session
    start time the effect has just computed. *)
Definition normalizeConsole (st : Q)
    (consoleLogs : option (list ConsoleLogEntry))
  : list ConsoleLogEntry :=
  sort (fun a b => c_timestamp a - c_timestamp b)
       (map (fun e => console_with_relativeMs e (c_timestamp e - st))
            (match consoleLogs with Some l => l | None => [] end)).

(** The callback of [rawNet.map]. *)
Definition networkRelativeMs (st : Q) (e : NetworkLogEntry) : Q :=
  if truthy_num (wallTime e) then
    match wallTime e with Some w => w * 1000 - st | None => 0 end
  else if truthy_num (n_timestamp e) then
    match n_timestamp e with Some t => t * 1000 - st | None => 0 end
  else 0.

Definition normalizeNetwork (st : Q) (nd : NetworkData)
  : list NetworkLogEntry :=
  sort (fun a b => n_relativeMs a - n_relativeMs b)
       (map (fun e => network_with_relativeMs e (networkRelativeMs st e))
            (rawNet nd)).

End App.

(** ** A small URL parser to run the classifier on concrete URLs.  It
       reads absolute http and https URLs and references relative to the
       base: the fragment and the query are cut off, the authority is
       skipped, and an absolute URL with an empty host is refused. *)

Module SimpleURL.
Local Open Scope string_scope.

Fixpoint until (c : ascii) (s : string) : string :=
  match s with
  | EmptyString => EmptyString
  | String a r => if Ascii.eqb a c then EmptyString else String a (until c r)
  end.

Fixpoint from (c : ascii) (s : string) : string :=
  match s with
  | EmptyString => EmptyString
  | String a r => if Ascii.eqb a c then s else from c r
  end.

Definition after_authority (rest : string) : option string :=
  if until "/"%char rest =? EmptyString then None
  else Some (if from "/"%char rest =? EmptyString then "/"
             else from "/"%char rest).

Definition pathname (url base : string) : option string :=
  let u := until "?"%char (until "#"%char url) in
  if String.prefix "http://" u
  then after_authority (JS.slice_from 7 u)
  else if String.prefix "https://" u
  then after_authority (JS.slice_from 8 u)
  else if String.prefix "/" u then Some u
  else Some ("/" ++ u).

#[export] Instance api : URLApi := {| URL_pathname := pathname |}.

End SimpleURL.

(** ** The bundle of the end-to-end scenario: session start 1000 ms, one
       console event stamped 1500 ms, one network event whose wall
       clock, kept in seconds, reads 2.2 s. *)

Module Scenario.

Definition consoleEvent : ConsoleLogEntry :=
  {| c_source := None; c_level := None; c_timestamp := 1500;
     c_message := None; c_args := None; c_relativeMs := 0 |}.

Definition networkEvent : NetworkLogEntry :=
  {| request := None; response := None; n_method := None;
     n_url := None; n_status := None; resourceType := None;
     wallTime := Some (22 # 10); n_timestamp := None;
     n_error := None; n_relativeMs := 0 |}.

Definition consoleLogs : list ConsoleLogEntry :=
  App.normalizeConsole 1000 (Some [consoleEvent]).

Definition networkRequests : list NetworkLogEntry :=
  App.normalizeNetwork 1000 (App.NdArray [networkEvent]).

End Scenario.

(** ** Sample entries for running the definitions on concrete input *)

Module Examples.

(** A console entry already normalised to the given [relativeMs]. *)
Definition consoleAt (level : option string) (ms : Q) : ConsoleLogEntry :=
  {| c_source := None; c_level := level; c_timestamp := ms;
     c_message := None; c_args := None; c_relativeMs := ms |}.

(** A network entry of the given declared type and URL, already
    normalised to the given [relativeMs]. *)
Definition networkAt (type url : option string) (ms : Q) : NetworkLogEntry :=
  {| request := None; response := None; n_method := None;
     n_url := url; n_status := None; resourceType := type;
     wallTime := None; n_timestamp := None;
     n_error := None; n_relativeMs := ms |}.

(** [{type: "number", value: 42}]. *)
Definition number42 : RemoteObjectValue :=
  {| ro_type := "number"; ro_subtype := None; ro_value := Some (VInt 42);
     ro_description := None; ro_className := None; ro_preview := None |}.

(** The array preview with number properties 1 and 2. *)
Definition array12 (overflow : option bool) : ObjectPreviewValue :=
  mkPreview (Some "array") None overflow
    (Some [mkProperty "0" "number" (Some "1") None None;
           mkProperty "1" "number" (Some "2") None None]).

Definition objectOf (preview : ObjectPreviewValue) (className : option string)
  : RemoteObjectValue :=
  {| ro_type := "object"; ro_subtype := None; ro_value := None;
     ro_description := None; ro_className := className;
     ro_preview := Some preview |}.

(** An overflowed preview with a present, empty property list. *)
Definition emptyOverflowed (subtype : option string) : ObjectPreviewValue :=
  mkPreview subtype None (Some true) (Some []).

(** A message of the browser itself, at the given level. *)
Definition browserMessage (level : option string) (message : string)
  : ConsoleLogEntry :=
  {| c_source := Some "browser"; c_level := level; c_timestamp := 0;
     c_message := Some message; c_args := None; c_relativeMs := 0 |}.

(** An uncaught exception with the given message. *)
Definition exceptionOf (message : string) : ConsoleLogEntry :=
  {| c_source := Some "exception"; c_level := None; c_timestamp := 0;
     c_message := Some message; c_args := None; c_relativeMs := 0 |}.

(** A string of [n] letters. *)
Definition letters (n : nat) : string :=
  string_of_list_ascii (repeat "x"%char n).

End Examples.

(** ** What the viewers derive from a query result *)

Module ViewerChrome.

(** [visibleEntries.length > 0
      ? visibleEntries[visibleEntries.length - 1].index : -1],
    the row both viewers scroll to. *)
Definition lastVisibleIndex {E : Type} (r : @Timeline.QueryResult E) : Z :=
  let visibleEntries := Timeline.visibleEntries r in
  if (0 <? List.length visibleEntries)%nat then
    match nth_error visibleEntries (List.length visibleEntries - 1) with
    | Some pe => Timeline.index pe
    | None => (-1)%Z
    end
  else (-1)%Z.

(** [visibleCount: filtered.length] of the network viewer. *)
Definition visibleCount {E : Type} (r : @Timeline.QueryResult E) : nat :=
  List.length (Timeline.visibleEntries r).

(** [const isActive = index === closestIndex] of a rendered row. *)
Definition isActive {E : Type} (r : @Timeline.QueryResult E)
           (pe : @Timeline.Processed E) : bool :=
  (Timeline.index pe =? Timeline.closestIndex r)%Z.

End ViewerChrome.

(** ** Text formatters of the viewers *)

Module Format.
Import JS.
Local Open Scope string_scope.

(** [String(n)] for an integer [n]. *)
Definition dec (n : Z) : string := NilZero.string_of_int (Z.to_int n).

(** [s.padStart(n, "0")]. *)
Definition padStart0 (n : nat) (s : string) : string :=
  string_of_list_ascii (repeat "0"%char (n - String.length s)) ++ s.

(** [Math.max(0, x)]. *)
Definition max0 (x : Q) : Q := if Qle_bool 0 x then x else 0.

(** [formatTime] of the network viewer and of the video player: both
    clamp at zero, take whole seconds, and print minutes and seconds on
    two digits at least. *)
Definition formatTime (relativeMs : Q) : string :=
  let ms := max0 relativeMs in
  let totalSec := Qfloor (ms / 1000) in
  let min := padStart0 2 (dec (totalSec / 60)) in
  let sec := padStart0 2 (dec (Z.rem totalSec 60)) in
  min ++ ":" ++ sec.

(** [a % b] on numbers: the remainder has the sign of [a]. *)
Definition rem (a b : Q) : Q :=
  let q := a / b in
  a - b * inject_Z (if Qle_bool 0 q then Qfloor q else Qceiling q).

(** [formatTime] of the console viewer, with milliseconds. *)
Definition formatTimeMs (relativeMs : Q) : string :=
  let ms := max0 relativeMs in
  let totalSec := Qfloor (ms / 1000) in
  let millis := padStart0 3 (dec (Qfloor (rem ms 1000))) in
  let min := padStart0 2 (dec (totalSec / 60)) in
  let sec := padStart0 2 (dec (Z.rem totalSec 60)) in
  min ++ ":" ++ sec ++ "." ++ millis.

(** [x.toFixed(1)] for [x >= 0]: the tenths nearest to [x], the larger
    of two equally near, printed with one decimal. *)
Definition toFixed1 (x : Q) : string :=
  let n := Qfloor (x * 10 + (1 # 2)) in
  dec (n / 10) ++ "." ++ dec (n mod 10).

(** [formatSize]; a size is a whole number of bytes. *)
Definition formatSize (bytes : option Z) : string :=
  match bytes with
  | None => "-"
  | Some bytes =>
      if (bytes =? 0)%Z || (bytes <=? 0)%Z then "-"
      else if (bytes <? 1024)%Z then dec bytes ++ " B"
      else if (bytes <? 1024 * 1024)%Z
           then toFixed1 (inject_Z bytes / 1024) ++ " KB"
           else toFixed1 (inject_Z bytes / (1024 * 1024)) ++ " MB"
  end.

(** The character of a decimal digit, and a number below 100 or below
    1000 written on two or three digits: the vocabulary in which the
    labels are read back. *)
Definition digit (d : Z) : ascii := ascii_of_nat (48 + Z.to_nat d).

Definition two_digits (n : Z) : string :=
  String (digit (n / 10)) (String (digit (n mod 10)) EmptyString).

Definition three_digits (n : Z) : string :=
  String (digit (n / 100)) (two_digits (n mod 100)).

End Format.

(** [new URL(url)] with no base, read for [u.pathname + u.search];
    [None] when the constructor throws. *)
Class URLParts : Type := {
  URL_path_and_search : string -> option string
}.

Module UrlColumn.
Import JS.
Local Open Scope string_scope.

(** [truncateUrl]. *)
Definition truncateUrl `{URLParts} (url : string) : string :=
  match URL_path_and_search url with
  | Some p =>
      if (60 <? String.length p)%nat then slice0 60 p ++ "..." else p
  | None =>
      if negb (url =? EmptyString) && (60 <? String.length url)%nat
      then slice0 60 url ++ "..." else url
  end.

End UrlColumn.

(** A URL parser without base for concrete runs: absolute http and
    https URLs only, the fragment cut off and the query kept. *)
Module SimpleParts.
Local Open Scope string_scope.

Definition path_and_search (url : string) : option string :=
  let u := SimpleURL.until "#"%char url in
  if String.prefix "http://" u
  then SimpleURL.after_authority (JS.slice_from 7 u)
  else if String.prefix "https://" u
  then SimpleURL.after_authority (JS.slice_from 8 u)
  else None.

#[export] Instance api : URLParts :=
  {| URL_path_and_search := path_and_search |}.

End SimpleParts.

(** ** Request details of the network viewer: headers and the cURL
       command *)

Module Curl.
Import JS.
Local Open Scope string_scope.

Record HeaderItem : Type := mkHeaderItem {
  h_name : string;
  h_value : string
}.

(** [HeaderItem[] | Record<string, string>], the record given by its
    entries in [Object.entries] order. *)
Inductive Headers : Type :=
| HeaderArray (items : list HeaderItem)
| HeaderRecord (entries : list (string * string)).

(** [postData?: { text?: string } | string] of a request. *)
Inductive PostData : Type :=
| PostObject (text : option string)
| PostString (s : string).

(** The fields of [entry.request] that the detail panel reads. *)
Record RequestDetail : Type := mkRequestDetail {
  rd_method : option string;
  rd_url : option string;
  rd_headers : option Headers;
  rd_postData : option PostData
}.

(** The fields of a network entry that the detail panel reads. *)
Record DetailEntry : Type := mkDetailEntry {
  d_request : option RequestDetail;
  d_method : option string;
  d_url : option string;
  d_requestHeaders : option Headers;
  d_postData : option string
}.

(** The line feed. *)
Definition nl : string := String (ascii_of_nat 10) EmptyString.

Definition header_line (name value : string) : string :=
  name ++ ": " ++ value.


(** [s.replace(/'/g, "'\\''")]: close the quote, an escaped quote, open
    the quote again. *)
Definition shq (s : string) : string := replace_all "'"%char "'\''" s.

(** [entry.request || {}]. *)
Definition request_of (entry : DetailEntry) : RequestDetail :=
  match d_request entry with
  | Some r => r
  | None => {| rd_method := None; rd_url := None; rd_headers := None;
               rd_postData := None |}
  end.

(** [Array.isArray(headers) ? headers : Object.entries(headers).map(...)]. *)
Definition headerList (headers : Headers) : list HeaderItem :=
  match headers with
  | HeaderArray items => items
  | HeaderRecord entries =>
      map (fun kv => {| h_name := fst kv; h_value := snd kv |}) entries
  end.

(** The [postData] constant of [generateCurl]. *)
Definition curl_postData (entry : DetailEntry) : option string :=
  match rd_postData (request_of entry) with
  | Some (PostObject text) => text
  | Some (PostString s) => or_opt (Some s) (d_postData entry)
  | None => d_postData entry
  end.

(** The [parts] array of [generateCurl] when it is joined. *)
Definition curl_parts (entry : DetailEntry) : list string :=
  let request := request_of entry in
  let url := or_else (or_opt (rd_url request) (d_url entry)) EmptyString in
  let method := or_else (or_opt (rd_method request) (d_method entry)) "GET" in
  let parts := ["curl '" ++ shq url ++ "'"] in
  let parts :=
    if negb (method =? "GET") then App.push parts ("-X " ++ method)
    else parts in
  let headers :=
    match rd_headers request with
    | Some h => Some h
    | None => d_requestHeaders entry
    end in
  let parts :=
    match headers with
    | Some headers =>
        fold_left
          (fun parts h =>
             App.push parts
               ("-H '" ++ h_name h ++ ": " ++ shq (h_value h) ++ "'"))
          (headerList headers) parts
    | None => parts
    end in
  let parts :=
    match curl_postData entry with
    | Some postData =>
        if truthy_str (Some postData)
        then App.push parts ("--data-raw '" ++ shq postData ++ "'")
        else parts
    | None => parts
    end in
  parts.

(** [generateCurl]: the parts joined by a space, a backslash, a line
    feed and two spaces. *)
Definition generateCurl (entry : DetailEntry) : string :=
  join (" \" ++ nl ++ "  ") (curl_parts entry).

(** How a POSIX shell reads one word made of single-quoted stretches
    and backslash-escaped characters: inside quotes every character up
    to the next quote stands for itself; outside, a backslash makes the
    next character stand for itself.  [None] for a word of another
    make. *)
Fixpoint sh_word (quoted : bool) (s : string) : option string :=
  match s with
  | EmptyString => if quoted then None else Some EmptyString
  | String c r =>
      if quoted then
        if Ascii.eqb c "'"%char then sh_word false r
        else option_map (String c) (sh_word true r)
      else if Ascii.eqb c "'"%char then sh_word true r
      else if Ascii.eqb c "\"%char then
        match r with
        | String d r' => option_map (String d) (sh_word false r')
        | EmptyString => None
        end
      else None
  end.

End Curl.

(** ** Reading escaped text back: what a browser makes of the four
       entities [escapeHtml] writes *)

Module Entities.
Import JS.
Local Open Scope string_scope.





End Entities.

(** ** Initiator stack of the network detail panel *)

Module Stack.
Import JS.
Local Open Scope string_scope.

Record StackFrameInfo : Type := mkFrame {
  f_functionName : option string;
  f_url : option string;
  f_lineNumber : option Z;
  f_columnNumber : option Z;
  f_originalName : option string;
  f_originalSource : option string;
  f_originalLine : option Z;
  f_originalColumn : option Z
}.

Local Unset Elimination Schemes.

(** [StackInfo]: call frames and an optional parent chain. *)
Inductive StackInfo : Type :=
| mkStackInfo (callFrames : option (list StackFrameInfo))
              (parent : option StackInfo)
              (description : option string).

(** [n || 0] on a line or column number. *)
Definition or_zero (n : option Z) : Z :=
  match n with Some z => z | None => 0%Z end.

(** One rendered frame: its style, the function name and the location
    (empty when the frame has none). *)
Record FrameRow : Type := mkFrameRow {
  row_vendor : bool;
  row_fnName : string;
  row_location : string
}.

(** The body of [frames.map(...)]. *)
Definition frame_row (frame : StackFrameInfo) : FrameRow :=
  let fnName :=
    or_else (or_opt (f_originalName frame) (f_functionName frame))
            "(anonymous)" in
  let location :=
    if truthy_str (f_originalSource frame) then
      Renderer.hole (f_originalSource frame) ++ ":"
        ++ Format.dec (or_zero (f_originalLine frame) + 1) ++ ":"
        ++ Format.dec (or_zero (f_originalColumn frame) + 1)
    else if truthy_str (f_url frame) then
      Renderer.hole (f_url frame) ++ ":"
        ++ Format.dec (or_zero (f_lineNumber frame) + 1) ++ ":"
        ++ Format.dec (or_zero (f_columnNumber frame) + 1)
    else EmptyString in
  let src := or_else (or_opt (f_originalSource frame) (f_url frame))
                     EmptyString in
  let isVendor := str_includes "node_modules" src in
  {| row_vendor := isVendor; row_fnName := fnName;
     row_location := location |}.

(** What [InitiatorStack] returns: nothing, or a block of frame rows
    followed, when the stack has a parent, by a separator carrying the
    parent's description and by the parent's own block. *)
Inductive StackView : Type :=
| ViewNull
| ViewBlock (rows : list FrameRow) (parent : option (string * StackView)).

Fixpoint InitiatorStack (stack : StackInfo) : StackView :=
  match stack with
  | mkStackInfo callFrames parent _ =>
      let frames := match callFrames with Some l => l | None => [] end in
      match frames, parent with
      | [], None => ViewNull
      | _, _ =>
          ViewBlock
            (map frame_row frames)
            (match parent with
             | Some p =>
                 Some (or_else
                         (match p with mkStackInfo _ _ d => d end) "async",
                       InitiatorStack p)
             | None => None
             end)
      end
  end.

Local Set Elimination Schemes.

(** The text of a frame row and of a separator. *)
Definition row_text (r : FrameRow) : string :=
  "at " ++ row_fnName r
    ++ (if row_location r =? EmptyString then EmptyString
        else " (" ++ row_location r ++ ")").

Definition separator_text (description : string) : string :=
  "--- " ++ description ++ " ---".

(** The lines of a view, top to bottom. *)
Fixpoint view_lines (v : StackView) : list string :=
  match v with
  | ViewNull => []
  | ViewBlock rows parent =>
      (map row_text rows
       ++ match parent with
          | Some (d, pv) => separator_text d :: view_lines pv
          | None => []
          end)%list
  end.

(** All the frames of a chain, the stack's own first, and the number of
    parent links. *)
Fixpoint chain_frames (stack : StackInfo) : list StackFrameInfo :=
  match stack with
  | mkStackInfo callFrames parent _ =>
      ((match callFrames with Some l => l | None => [] end)
       ++ match parent with Some p => chain_frames p | None => [] end)%list
  end.

Fixpoint chain_links (stack : StackInfo) : nat :=
  match stack with
  | mkStackInfo _ parent _ =>
      match parent with Some p => S (chain_links p) | None => O end
  end.

End Stack.

(** ** WebSocket detail of the network viewer *)

Module WsDetail.
Import JS.
Local Open Scope string_scope.

Record WsFrame : Type := mkWsFrame {
  direction : option string;
  payloadData : option string
}.

Record WsRow : Type := mkWsRow {
  wr_dir : string;
  wr_dirClass : string;
  wr_text : string
}.

Definition maxFrames : nat := 100.

(** The body of [ws.frames.slice(0, maxFrames).map(...)]. *)
Definition ws_row (f : WsFrame) : WsRow :=
  let sent := match direction f with
              | Some d => d =? "sent"
              | None => false
              end in
  let data := or_else (payloadData f) EmptyString in
  {| wr_dir := if sent then "↑" else "↓";
     wr_dirClass := if sent then "text-gh-success font-semibold"
                    else "text-gh-accent font-semibold";
     wr_text := if (200 <? String.length data)%nat
                then slice0 200 data ++ "..." else data |}.

Definition ws_rows (frames : list WsFrame) : list WsRow :=
  map ws_row (firstn maxFrames frames).

(** The count of the closing row, when there is one. *)
Definition ws_more (frames : list WsFrame) : option nat :=
  if (maxFrames <? List.length frames)%nat
  then Some (List.length frames - maxFrames)%nat
  else None.

End WsDetail.

(** ** The scrub bar of the video player *)

Module ScrubBar.
Import JS.

(** [Math.min(a, b)]. *)
Definition min2 (a b : Q) : Q := if Qle_bool a b then a else b.

(** [knownDurationMs || (videoDuration > 0 ? videoDuration * 1000 : 0)]. *)
Definition markerDurationMs (knownDurationMs : option Q) (videoDuration : Q)
  : Q :=
  if truthy_num knownDurationMs
  then match knownDurationMs with Some d => d | None => 0 end
  else if Qlt_bool 0 videoDuration then videoDuration * 1000 else 0.

(** [videoDuration > 0 ? videoDuration * 1000 : (knownDurationMs || 0)]. *)
Definition displayDurationMs (knownDurationMs : option Q) (videoDuration : Q)
  : Q :=
  if Qlt_bool 0 videoDuration then videoDuration * 1000
  else if truthy_num knownDurationMs
       then match knownDurationMs with Some d => d | None => 0 end
       else 0.

(** The played share of the bar, in percent. *)
Definition ratio (currentTime displayDurationMs : Q) : Q :=
  if Qlt_bool 0 displayDurationMs
  then min2 (currentTime / displayDurationMs * 100) 100
  else 0.

(** Where a marker is drawn, in percent of the bar; [None] when it is
    not drawn. *)
Definition marker_left (markerDurationMs : Q) (m : TimelineMarker)
  : option Q :=
  if Qlt_bool 0 markerDurationMs then
    let pct := min2 (timeMs m / markerDurationMs * 100) 100 in
    if Qlt_bool pct 0 || Qlt_bool 100 pct then None else Some pct
  else None.

End ScrubBar.

(** ** The recording id in the page address *)

Module Address.
Import JS.
Local Open Scope string_scope.

(** [s.split(sep)] for a one-character separator. *)
Fixpoint split (sep : ascii) (s : string) : list string :=
  match s with
  | EmptyString => [EmptyString]
  | String c r =>
      if Ascii.eqb c sep then EmptyString :: split sep r
      else match split sep r with
           | h :: t => String c h :: t
           | [] => [String c EmptyString]
           end
  end.

(** [parts[i]] for an index that may be negative. *)
Definition at_index (parts : list string) (i : Z) : option string :=
  if (i <? 0)%Z then None else nth_error parts (Z.to_nat i).

(** [pathParts[pathParts.length - 1] || pathParts[pathParts.length - 2]],
    [None] when the result is falsy and the page goes to its error
    state. *)
Definition recordingId (pathname : string) : option string :=
  let pathParts := split "/"%char pathname in
  let n := Z.of_nat (List.length pathParts) in
  let id := or_opt (at_index pathParts (n - 1)) (at_index pathParts (n - 2)) in
  if truthy_str id then id else None.

(** Whether a character occurs in a string. *)
Fixpoint has_char (c : ascii) (s : string) : bool :=
  match s with
  | EmptyString => false
  | String x r => Ascii.eqb x c || has_char c r
  end.

End Address.

(** ** The disk store: ids and the guard in front of the file system *)

Module Store.
Import JS.
Local Open Scope string_scope.

Definition hex_digit (n : nat) : ascii :=
  if (n <? 10)%nat then ascii_of_nat (48 + n) else ascii_of_nat (87 + n).

(** [buffer.toString("hex")]. *)
Fixpoint toHex (bytes : list ascii) : string :=
  match bytes with
  | [] => EmptyString
  | b :: rest =>
      let n := nat_of_ascii b in
      String (hex_digit (n / 16)) (String (hex_digit (n mod 16)) (toHex rest))
  end.

Definition is_hex (c : ascii) : bool :=
  let n := nat_of_ascii c in
  ((97 <=? n) && (n <=? 102))%nat || ((48 <=? n) && (n <=? 57))%nat.

Fixpoint all_hex (s : string) : bool :=
  match s with
  | EmptyString => true
  | String c r => is_hex c && all_hex r
  end.

(** [id && /^[a-f0-9]+$/.test(id)]. *)
Definition valid_id (id : string) : bool :=
  negb (id =? EmptyString) && all_hex id.

(** The state of the file system the store reads: which paths exist. *)
Section OnDisk.
Variable DATA_DIR : string.
Variable existsSync : string -> bool.

(** [path.join] of segments that need no normalising. *)
Definition join2 (a b : string) : string := a ++ "/" ++ b.

Definition exists_ (id : string) : bool :=
  if negb (valid_id id) then false
  else existsSync (join2 (join2 DATA_DIR id) "metadata.json").

Definition getVideoPath (id : string) : option string :=
  if negb (exists_ id) then None
  else
    let videoPath := join2 (join2 DATA_DIR id) "recording.webm" in
    if negb (existsSync videoPath) then None else Some videoPath.

(** [generateId]: [random4 i] is what the [i]-th call of
    [crypto.randomBytes(4)] returns, [random8] what the call of
    [crypto.randomBytes(8)] returns. *)
Fixpoint generateId_from (tries i : nat)
         (random4 : nat -> ascii * ascii * ascii * ascii)
         (random8 : list ascii) : string :=
  match tries with
  | O => toHex random8
  | S tries' =>
      let '(b0, b1, b2, b3) := random4 i in
      let id := toHex [b0; b1; b2; b3] in
      if negb (existsSync (join2 DATA_DIR id)) then id
      else generateId_from tries' (S i) random4 random8
  end.

Definition generateId := generateId_from 10 0.

End OnDisk.
End Store.

(** * Properties *)

(** ** Comparisons of JavaScript numbers *)

Module JSFacts.
Import JS.

Lemma Qlt_bool_iff (x y : Q) : Qlt_bool x y = true <-> x < y.
Proof.
  unfold Qlt_bool. rewrite negb_true_iff.
  split; intro Hxy.
  - apply Qnot_le_lt. intro Hle.
    apply Qle_bool_iff in Hle. congruence.
  - apply not_true_is_false. intro Hb.
    apply Qle_bool_iff in Hb. lra.
Qed.

Lemma Qlt_bool_false_iff (x y : Q) : Qlt_bool x y = false <-> y <= x.
Proof.
  unfold Qlt_bool. rewrite negb_false_iff. apply Qle_bool_iff.
Qed.

Lemma Qle_bool_false_iff (x y : Q) : Qle_bool x y = false <-> y < x.
Proof.
  rewrite <- Qlt_bool_iff. unfold Qlt_bool.
  now rewrite negb_true_iff.
Qed.

Lemma lt_num_trans (d1 d2 : Q) (n : jsnum) :
  d1 <= d2 -> lt_num d2 n = true -> lt_num d1 n = true.
Proof.
  destruct n as [q|]; simpl; [|reflexivity].
  rewrite !Qlt_bool_iff. lra.
Qed.

Lemma lt_num_between (d d0 : Q) (n : jsnum) :
  lt_num d0 n = false -> lt_num d n = true -> d < d0.
Proof.
  destruct n as [q|]; simpl; [|discriminate].
  rewrite Qlt_bool_false_iff, Qlt_bool_iff. lra.
Qed.

End JSFacts.

(** ** The timeline query *)

Module TimelineFacts.
Import JS JSFacts Timeline.

Section Viewer.
Context {E : Type}.
Variable relativeMs : E -> Q.
Variable category : E -> string.

Local Abbreviation Processed := (@Processed E).
Local Abbreviation scan := (scan relativeMs).
Local Abbreviation visit := (visit relativeMs).
Local Abbreviation inTime := (inTime relativeMs).
Local Abbreviation dist := (dist relativeMs).
Local Abbreviation chosen := (chosen relativeMs).

Lemma processFrom_nth (es : list E) : forall i k pe,
  nth_error (processFrom category i es) k = Some pe <->
  exists e, nth_error es k = Some e /\
            pe = {| entry := e; index := Z.of_nat (i + k);
                    filterKey := category e |}.
Proof.
  induction es as [|e0 es IH]; intros i k pe.
  - destruct k; simpl; split; try discriminate;
      intros [e [He _]]; discriminate.
  - destruct k as [|k]; simpl.
    + rewrite Nat.add_0_r. split.
      * intros [= <-]. now exists e0.
      * intros [e [[= <-] ->]]. reflexivity.
    + rewrite IH.
      replace (S i + k)%nat with (i + S k)%nat by lia. reflexivity.
Qed.

Lemma processFrom_entries (es : list E) : forall i,
  map entry (processFrom category i es) = es.
Proof.
  induction es as [|e es IH]; intro i; simpl; [|rewrite IH]; reflexivity.
Qed.

(** The kept entries are the ones in time, whatever the state. *)
Lemma scan_visible (t : Q) (pes : list Processed) : forall st,
  snd (scan t pes st) = filter (inTime t) pes.
Proof.
  induction pes as [|pe rest IH]; intro st; simpl; [reflexivity|].
  unfold visit, inTime at 1.
  destruct (Qle_bool (relativeMs (entry pe)) t) eqn:Hin; simpl.
  - destruct (lt_num _ _);
      match goal with
      | |- context [scan t rest ?s] =>
          specialize (IH s); destruct (scan t rest s) as [st2 vis]
      end; simpl in *; now rewrite IH.
  - specialize (IH st). destruct (scan t rest st) as [st2 vis].
    simpl in *. exact IH.
Qed.

Lemma scan_chosen (t : Q) (pes : list Processed) : forall st,
  chosen t pes st (fst (scan t pes st)).
Proof.
  induction pes as [|pe0 rest IH]; intro st.
  - left. simpl. split; [reflexivity|]. intros pe [].
  - simpl. unfold visit. fold (inTime t pe0). fold (dist t pe0).
    destruct (inTime t pe0) eqn:Hin0; simpl.
    + destruct (lt_num (dist t pe0) (closestDist st)) eqn:Hlt0.
      * (* the head is assigned *)
        match goal with
        | |- context [scan t rest ?s] =>
            specialize (IH s); destruct (scan t rest s) as [st2 vis]
        end.
        simpl in *. right.
        destruct IH as [[-> Hrest] | (k & pe & Hk & Hin & -> & Hlt & Hmin & Hfirst)].
        -- exists 0%nat, pe0. simpl. repeat split; auto.
           ++ intros pe' [<- | Hpe'] Hin'; [lra|].
              specialize (Hrest pe' Hpe' Hin'). simpl in Hrest.
              apply Qlt_bool_false_iff in Hrest. exact Hrest.
           ++ intros j pe' Hj. lia.
        -- simpl in Hlt. apply Qlt_bool_iff in Hlt.
           exists (S k), pe. simpl. repeat split; auto.
           ++ apply lt_num_trans with (d2 := dist t pe0); [lra | exact Hlt0].
           ++ intros pe' [<- | Hpe'] Hin'; [lra | now apply Hmin].
           ++ intros [|j] pe' Hj Hnth Hin'; simpl in Hnth.
              ** injection Hnth as <-. exact Hlt.
              ** apply (Hfirst j pe'); auto. lia.
      * (* the head is in time and not closer *)
        specialize (IH st). destruct (scan t rest st) as [st2 vis].
        simpl in *.
        destruct IH as [[-> Hrest] | (k & pe & Hk & Hin & -> & Hlt & Hmin & Hfirst)].
        -- left. split; [reflexivity|].
           intros pe' [<- | Hpe'] Hin'; auto.
        -- right. exists (S k), pe. simpl. repeat split; auto.
           ++ intros pe' [<- | Hpe'] Hin'; [|now apply Hmin].
              apply Qlt_le_weak. eapply lt_num_between; eauto.
           ++ intros [|j] pe' Hj Hnth Hin'; simpl in Hnth.
              ** injection Hnth as <-. eapply lt_num_between; eauto.
              ** apply (Hfirst j pe'); auto. lia.
    + (* the head is in the future *)
      specialize (IH st). destruct (scan t rest st) as [st2 vis].
      simpl in *.
      destruct IH as [[-> Hrest] | (k & pe & Hk & Hin & -> & Hlt & Hmin & Hfirst)].
      * left. split; [reflexivity|].
        intros pe' [<- | Hpe'] Hin'; [congruence | auto].
      * right. exists (S k), pe. simpl. repeat split; auto.
        -- intros pe' [<- | Hpe'] Hin'; [congruence | now apply Hmin].
        -- intros [|j] pe' Hj Hnth Hin'; simpl in Hnth.
           ++ injection Hnth as <-. congruence.
           ++ apply (Hfirst j pe'); auto. lia.
Qed.


Lemma query_unfold (es : list E) (t : Q) (f : string) :
  query relativeMs category es t f =
  let sc := scan t (processedEntries category es) closest0 in
  {| closestIndex :=
       if ge_num (closestDist (fst sc)) 1500 then (-1)%Z
       else closestIdx (fst sc);
     visibleEntries :=
       if (f =? "all")%string then snd sc
       else filter (fun pe => (filterKey pe =? f)%string) (snd sc) |}.
Proof.
  unfold query. destruct (scan t _ _) as [st vis]. reflexivity.
Qed.

Lemma query_visible_all (es : list E) (t : Q) :
  visibleEntries (query relativeMs category es t "all") =
  filter (inTime t) (processedEntries category es).
Proof.
  rewrite query_unfold. simpl. apply scan_visible.
Qed.

Lemma query_visible_In (es : list E) (t : Q) (f : string) (pe : Processed) :
  In pe (visibleEntries (query relativeMs category es t f)) <->
  In pe (processedEntries category es) /\
  relativeMs (entry pe) <= t /\
  (f = "all"%string \/ filterKey pe = f).
Proof.
  rewrite query_unfold. cbv zeta. cbn [visibleEntries].
  rewrite scan_visible.
  destruct (String.eqb_spec f "all") as [-> | Hf].
  - rewrite filter_In. unfold Timeline.inTime. rewrite Qle_bool_iff. tauto.
  - rewrite !filter_In. unfold Timeline.inTime.
    rewrite Qle_bool_iff, String.eqb_eq. tauto.
Qed.

Lemma query_closest_any_filter (es : list E) (t : Q) (f g : string) :
  closestIndex (query relativeMs category es t f) =
  closestIndex (query relativeMs category es t g).
Proof.
  now rewrite !query_unfold.
Qed.

Lemma processed_In (es : list E) (pe : Processed) :
  In pe (processedEntries category es) ->
  exists k, nth_error es k = Some (entry pe) /\ index pe = Z.of_nat k.
Proof.
  intro Hin. apply In_nth_error in Hin as [k Hk].
  apply processFrom_nth in Hk as (e & He & ->).
  exists k. now split.
Qed.

(** The reported index, read on the entries themselves. *)
Lemma query_closest_spec (es : list E) (t : Q) (f : string) :
  let r := closestIndex (query relativeMs category es t f) in
  (r = (-1)%Z /\
   forall e, In e es -> relativeMs e <= t -> 1500 <= Qabs (relativeMs e - t))
  \/
  (exists k e,
      r = Z.of_nat k /\ nth_error es k = Some e /\ relativeMs e <= t /\
      Qabs (relativeMs e - t) < 1500 /\
      (forall e', In e' es -> relativeMs e' <= t ->
                  Qabs (relativeMs e - t) <= Qabs (relativeMs e' - t)) /\
      (forall j e', (j < k)%nat -> nth_error es j = Some e' ->
                    relativeMs e' <= t ->
                    Qabs (relativeMs e - t) < Qabs (relativeMs e' - t))).
Proof.
  cbv zeta. rewrite query_unfold. cbv zeta. cbn [closestIndex].
  pose proof (scan_chosen t (processedEntries category es) closest0) as Hc.
  assert (Hall : forall e, In e es -> exists pe,
             In pe (processedEntries category es) /\ entry pe = e).
  { intros e He. apply In_nth_error in He as [k Hk].
    exists {| entry := e; index := Z.of_nat (0 + k);
              filterKey := category e |}.
    split; [|reflexivity].
    apply nth_error_In with (n := k). unfold processedEntries.
    apply processFrom_nth. exists e. now split. }
  destruct Hc as [[-> Hnone] | (k & pe & Hk & Hin & -> & _ & Hmin & Hfirst)].
  - left. split; [reflexivity|].
    intros e He Hle. destruct (Hall e He) as (pe & Hpe & <-).
    specialize (Hnone pe Hpe). simpl in Hnone.
    assert (true = false); [|discriminate].
    apply Hnone. unfold Timeline.inTime. now apply Qle_bool_iff.
  - cbn [closestDist closestIdx ge_num].
    unfold Timeline.inTime in *. unfold Timeline.dist in *.
    apply Qle_bool_iff in Hin.
    assert (Hmin' : forall e', In e' es -> relativeMs e' <= t ->
              Qabs (relativeMs (entry pe) - t) <= Qabs (relativeMs e' - t)).
    { intros e' He' Hle'. destruct (Hall e' He') as (pe' & Hpe' & <-).
      apply Hmin; [exact Hpe' | now apply Qle_bool_iff]. }
    destruct (Qle_bool 1500 _) eqn:Hfar.
    + left. split; [reflexivity|].
      intros e He Hle. apply Qle_bool_iff in Hfar.
      specialize (Hmin' e He Hle). lra.
    + right. apply Qle_bool_false_iff in Hfar.
      apply processFrom_nth in Hk as (e & He & ->). simpl in *.
      exists k, e. repeat split; auto.
      intros j e' Hj Hnth Hle'.
      apply (Hfirst j {| entry := e'; index := Z.of_nat (0 + j);
                         filterKey := category e' |}); auto.
      * apply processFrom_nth. now exists e'.
      * simpl. now apply Qle_bool_iff.
Qed.

End Viewer.
End TimelineFacts.

(** ** Sorting by a numeric key: the comparators of the normaliser are
       differences of one field *)

Module SortFacts.
Import JS JSFacts.

Section ByKey.
Context {A : Type}.
Variable key : A -> Q.

Local Abbreviation byKey := (byKey key).
Local Abbreviation ascending := (ascending key).

Lemma insert_sorted_perm (x : A) (l : list A) :
  Permutation (insert_sorted byKey x l) (x :: l).
Proof.
  induction l as [|y r IH]; simpl; [reflexivity|].
  destruct (Qle_bool (byKey x y) 0); [reflexivity|].
  rewrite IH. apply perm_swap.
Qed.

Lemma sort_perm (l : list A) : Permutation (sort byKey l) l.
Proof.
  induction l as [|x l IH]; simpl; [reflexivity|].
  rewrite insert_sorted_perm. now constructor.
Qed.

Lemma insert_sorted_sorted (x : A) (l : list A) :
  StronglySorted ascending l ->
  StronglySorted ascending (insert_sorted byKey x l).
Proof.
  induction 1 as [|y r Hr IH Hy]; simpl.
  - repeat constructor.
  - destruct (Qle_bool (byKey x y) 0) eqn:Hcmp.
    + apply Qle_bool_iff in Hcmp. unfold byKey in Hcmp.
      constructor; [now constructor|].
      constructor; [unfold ascending; lra|].
      eapply Forall_impl; [|exact Hy].
      unfold ascending. intros a Ha. lra.
    + apply Qle_bool_false_iff in Hcmp. unfold byKey in Hcmp.
      constructor; [exact IH|].
      apply Forall_forall. intros a Ha.
      apply (Permutation_in _ (insert_sorted_perm x r)) in Ha.
      destruct Ha as [<- | Ha].
      * unfold ascending. lra.
      * rewrite Forall_forall in Hy. now apply Hy.
Qed.

Lemma sort_sorted (l : list A) : StronglySorted ascending (sort byKey l).
Proof.
  induction l as [|x l IH]; simpl; [constructor|].
  now apply insert_sorted_sorted.
Qed.

Lemma sorted_filter (f : A -> bool) (l : list A) :
  StronglySorted ascending l -> StronglySorted ascending (filter f l).
Proof.
  induction 1 as [|x r Hr IH Hx]; simpl; [constructor|].
  destruct (f x); [|exact IH].
  constructor; [exact IH|].
  apply Forall_forall. intros a Ha. apply filter_In in Ha as [Ha _].
  rewrite Forall_forall in Hx. now apply Hx.
Qed.

(** Around any element of a sorted list: smaller keys before it, larger
    keys after it. *)
Lemma sorted_split (l1 l2 : list A) (x : A) :
  StronglySorted ascending (l1 ++ x :: l2) ->
  Forall (fun a => key a <= key x) l1 /\ Forall (fun a => key x <= key a) l2.
Proof.
  induction l1 as [|y l1 IH]; simpl; intro Hs.
  - apply StronglySorted_inv in Hs as [_ Hx]. split; [constructor|exact Hx].
  - apply StronglySorted_inv in Hs as [Hs Hy].
    destruct (IH Hs) as [H1 H2]. split; [|exact H2].
    constructor; [|exact H1].
    rewrite Forall_forall in Hy. apply Hy. apply in_elt.
Qed.

End ByKey.

Lemma sorted_map_entry {E : Type} (key : E -> Q)
      (pes : list (@Timeline.Processed E)) :
  StronglySorted (ascending (fun pe => key (Timeline.entry pe))) pes ->
  StronglySorted (ascending key) (map Timeline.entry pes).
Proof.
  induction 1 as [|pe r Hr IH Hpe]; simpl; constructor; auto.
  apply Forall_map. exact Hpe.
Qed.

Lemma sorted_processed {E : Type} (key : E -> Q) (category : E -> string)
      (es : list E) : forall i,
  StronglySorted (ascending key) es ->
  StronglySorted (ascending (fun pe => key (Timeline.entry pe)))
                 (Timeline.processFrom category i es).
Proof.
  induction es as [|e es IH]; intros i Hs; simpl; [constructor|].
  apply StronglySorted_inv in Hs as [Hs He].
  constructor; [now apply IH|].
  apply Forall_forall. intros pe Hpe.
  apply In_nth_error in Hpe as [k Hk].
  apply TimelineFacts.processFrom_nth in Hk as (e' & He' & ->).
  unfold ascending. simpl.
  rewrite Forall_forall in He. apply He. eapply nth_error_In; eauto.
Qed.

(** Whatever the filter and the playback time, the entries a viewer
    shows are in the order of its input. *)
Lemma query_keeps_order {E : Type} (key : E -> Q) (category : E -> string)
      (es : list E) (t : Q) (f : string) :
  StronglySorted (ascending key) es ->
  StronglySorted (ascending key)
    (map Timeline.entry
         (Timeline.visibleEntries (Timeline.query key category es t f))).
Proof.
  intro Hs. rewrite TimelineFacts.query_unfold. cbv zeta.
  cbn [Timeline.visibleEntries]. rewrite TimelineFacts.scan_visible.
  apply sorted_map_entry.
  pose proof (sorted_processed key category es 0 Hs) as Hp.
  destruct (f =? "all")%string; repeat apply sorted_filter; exact Hp.
Qed.

(** Entries that compare equal keep the order they came in. *)
Example sort_is_stable :
  sort (byKey fst) [(2, "a"); (1, "b"); (2, "c"); (1, "d")]
  = [(1, "b"); (1, "d"); (2, "a"); (2, "c")].
Proof. reflexivity. Qed.

End SortFacts.

(** ** Claims about the timeline query

    [NetworkViewer.query] and [ConsoleViewer.query] are [Timeline.query]
    at the network and console entry types, so a statement about
    [Timeline.query] at every entry type holds of both viewers. *)

(** C1. Nearest-window boundary.  Take an event that is eligible
    (its [relativeMs] does not exceed the playback time), whose distance
    to the playback time is strictly below 1500 and is the least among
    the eligible events.  Then the reported nearest index is the index
    of an eligible event at exactly that least distance, never a later
    one than the given event, and it is the given event itself whenever
    no earlier eligible event is at the same distance.  When every
    eligible event is at distance 1500 or more (in particular when one
    such event is the only eligible one, or none is eligible), the
    reported index is -1, the code's value for none.  The active filter
    plays no part. *)
Theorem nearest_window
  {E : Type} (relativeMs : E -> Q) (category : E -> string)
  (entries : list E) (playbackTimeMs : Q) (activeFilter : string) :
  (forall i e,
      nth_error entries i = Some e ->
      relativeMs e <= playbackTimeMs ->
      Qabs (relativeMs e - playbackTimeMs) < 1500 ->
      (forall e', In e' entries -> relativeMs e' <= playbackTimeMs ->
                  Qabs (relativeMs e - playbackTimeMs)
                  <= Qabs (relativeMs e' - playbackTimeMs)) ->
      exists k e_k,
        Timeline.closestIndex
          (Timeline.query relativeMs category entries playbackTimeMs
                          activeFilter) = Z.of_nat k /\
        nth_error entries k = Some e_k /\
        relativeMs e_k <= playbackTimeMs /\
        Qabs (relativeMs e_k - playbackTimeMs)
        == Qabs (relativeMs e - playbackTimeMs) /\
        (k <= i)%nat /\
        ((forall j e', (j < i)%nat -> nth_error entries j = Some e' ->
                       relativeMs e' <= playbackTimeMs ->
                       ~ Qabs (relativeMs e' - playbackTimeMs)
                         == Qabs (relativeMs e - playbackTimeMs)) ->
         k = i))
  /\
  ((forall e, In e entries -> relativeMs e <= playbackTimeMs ->
              1500 <= Qabs (relativeMs e - playbackTimeMs)) ->
   Timeline.closestIndex
     (Timeline.query relativeMs category entries playbackTimeMs
                     activeFilter) = (-1)%Z).
Proof.
  pose proof (TimelineFacts.query_closest_spec relativeMs category entries
                playbackTimeMs activeFilter) as Hspec.
  cbv zeta in Hspec.
  destruct Hspec as [[Hr Hfar] | (k & e_k & Hr & Hk & Hle & Hnear & Hmin & Hfirst)].
  - split.
    + intros i e Hi Hel Hd _.
      specialize (Hfar e (nth_error_In _ _ Hi) Hel). lra.
    + intros _. exact Hr.
  - split.
    + intros i e Hi Hel Hd Hleast.
      pose proof (Hmin e (nth_error_In _ _ Hi) Hel) as H1.
      pose proof (Hleast e_k (nth_error_In _ _ Hk) Hle) as H2.
      assert (Heq : Qabs (relativeMs e_k - playbackTimeMs)
                    == Qabs (relativeMs e - playbackTimeMs)) by lra.
      assert (Hki : (k <= i)%nat).
      { destruct (Nat.le_gt_cases k i) as [Hok | Hlt]; [exact Hok|].
        specialize (Hfirst i e Hlt Hi Hel). lra. }
      exists k, e_k. repeat split; auto.
      intros Hnotie.
      destruct (Nat.eq_dec k i) as [-> | Hne]; [reflexivity|].
      exfalso. apply (Hnotie k e_k); auto. lia.
    + intros Hall. specialize (Hall e_k (nth_error_In _ _ Hk) Hle). lra.
Qed.

(** C3. Visibility monotonicity.  For every stream and every fixed
    filter, if [t1 < t2] then every entry visible at playback time [t1]
    is also visible at playback time [t2]. *)
Theorem visible_monotone
  {E : Type} (relativeMs : E -> Q) (category : E -> string)
  (entries : list E) (activeFilter : string) (t1 t2 : Q) :
  t1 < t2 ->
  forall pe,
    In pe (Timeline.visibleEntries
             (Timeline.query relativeMs category entries t1 activeFilter)) ->
    In pe (Timeline.visibleEntries
             (Timeline.query relativeMs category entries t2 activeFilter)).
Proof.
  intros Hlt pe.
  rewrite !TimelineFacts.query_visible_In.
  intros (Hin & Hle & Hf). repeat split; auto. lra.
Qed.

(** Run of C1 at the boundary: one console entry at 500 ms is the
    nearest at playback time 1999 ms (distance 1499); one at 499 ms is
    not (distance 1500), though it is the only eligible entry. *)
Lemma nearest_window_witness :
  Timeline.closestIndex
    (ConsoleViewer.query [Examples.consoleAt None 500] 1999 "all") = 0%Z /\
  Timeline.closestIndex
    (ConsoleViewer.query [Examples.consoleAt None 499] 1999 "all") = (-1)%Z.
Proof.
  split.
  - destruct (nearest_window c_relativeMs ConsoleLevels.getFilterLevel
                [Examples.consoleAt None 500] 1999 "all") as [Hnear _].
    destruct (Hnear 0%nat (Examples.consoleAt None 500) eq_refl)
      as (k & e_k & Hk & _ & _ & _ & Hki & _).
    + vm_compute. discriminate.
    + vm_compute. reflexivity.
    + intros e' [<- | []] _. apply Qle_refl.
    + unfold ConsoleViewer.query. rewrite Hk.
      assert (k = 0%nat) as -> by lia. reflexivity.
  - destruct (nearest_window c_relativeMs ConsoleLevels.getFilterLevel
                [Examples.consoleAt None 499] 1999 "all") as [_ Hnone].
    apply Hnone. intros e [<- | []] _. vm_compute. discriminate.
Defined.

(** Run of C3: the console entry at 500 ms, visible at 600 ms, is
    visible at 1300 ms. *)
Lemma visible_monotone_witness :
  600 < 1300 /\
  In {| Timeline.entry := Examples.consoleAt None 500;
        Timeline.index := 0; Timeline.filterKey := "log" |}
     (Timeline.visibleEntries
        (ConsoleViewer.query [Examples.consoleAt None 500] 1300 "log")).
Proof.
  split; [reflexivity|].
  apply (visible_monotone c_relativeMs ConsoleLevels.getFilterLevel
           [Examples.consoleAt None 500] "log" 600 1300).
  - reflexivity.
  - vm_compute. left. reflexivity.
Defined.

(** C9. The nearest index is chosen among all eligible events, whatever
    their category: for every stream, playback time and filter, both
    viewers report the index they report under the wildcard; and under a
    concrete filter the reported index can be that of an event that is
    not in the visible subset of the same query (a script request
    nearest to the playback position while the stylesheet filter is
    active; a plain log line while the error filter is active). *)
Theorem nearest_ignores_filter `{URLApi} :
  (forall (entries : list NetworkLogEntry) (t : Q) (f : string),
      Timeline.closestIndex (NetworkViewer.query entries t f) =
      Timeline.closestIndex (NetworkViewer.query entries t "all"))
  /\
  (forall (entries : list ConsoleLogEntry) (t : Q) (f : string),
      Timeline.closestIndex (ConsoleViewer.query entries t f) =
      Timeline.closestIndex (ConsoleViewer.query entries t "all"))
  /\
  (let entries := [Examples.networkAt (Some "Stylesheet") None 100;
                   Examples.networkAt (Some "Script") None 500] in
   let r := NetworkViewer.query entries 600 "css" in
   Timeline.closestIndex r = 1%Z /\
   Timeline.visibleEntries r <> [] /\
   forall pe, In pe (Timeline.visibleEntries r) ->
              Timeline.index pe <> Timeline.closestIndex r)
  /\
  (let entries := [Examples.consoleAt (Some "error") 100;
                   Examples.consoleAt (Some "log") 500] in
   let r := ConsoleViewer.query entries 600 "error" in
   Timeline.closestIndex r = 1%Z /\
   Timeline.visibleEntries r <> [] /\
   forall pe, In pe (Timeline.visibleEntries r) ->
              Timeline.index pe <> Timeline.closestIndex r).
Proof.
  split; [|split; [|split]].
  - intros. apply TimelineFacts.query_closest_any_filter.
  - intros. apply TimelineFacts.query_closest_any_filter.
  - cbv zeta. split; [reflexivity|]. split; [discriminate|].
    intros pe [<- | []]. discriminate.
  - cbv zeta. split; [reflexivity|]. split; [discriminate|].
    intros pe [<- | []]. discriminate.
Qed.

(** C2. End-to-end scenario.  With session start 1000, the console
    event stamped 1500 is normalised to [relativeMs] 500 and the network
    event whose wall clock reads 2.2 s (epoch 2200 ms) to [relativeMs]
    1200.  At playback time 600 the console viewer reports that console
    event as nearest (distance 100) and the network viewer reports none
    and shows nothing; at playback time 1300 both events are visible and
    the network viewer reports the network event as nearest (distance
    100). *)
Theorem end_to_end_scenario `{URLApi} :
  (exists c, Scenario.consoleLogs = [c] /\ c_relativeMs c == 500 /\
     Timeline.closestIndex (ConsoleViewer.query Scenario.consoleLogs 600 "all")
       = 0%Z /\
     Qabs (c_relativeMs c - 600) == 100 /\
     map Timeline.entry
         (Timeline.visibleEntries
            (ConsoleViewer.query Scenario.consoleLogs 600 "all")) = [c] /\
     map Timeline.entry
         (Timeline.visibleEntries
            (ConsoleViewer.query Scenario.consoleLogs 1300 "all")) = [c])
  /\
  (exists n, Scenario.networkRequests = [n] /\ n_relativeMs n == 1200 /\
     Timeline.closestIndex
       (NetworkViewer.query Scenario.networkRequests 600 "all") = (-1)%Z /\
     Timeline.visibleEntries
       (NetworkViewer.query Scenario.networkRequests 600 "all") = [] /\
     Timeline.closestIndex
       (NetworkViewer.query Scenario.networkRequests 1300 "all") = 0%Z /\
     Qabs (n_relativeMs n - 1300) == 100 /\
     map Timeline.entry
         (Timeline.visibleEntries
            (NetworkViewer.query Scenario.networkRequests 1300 "all")) = [n]).
Proof.
  split.
  - eexists. split; [reflexivity|]. repeat split.
  - eexists. split; [reflexivity|]. repeat split.
Qed.

(** ** Claims about the bundle normaliser *)

Module NormalizeFacts.
Import JS JSFacts SortFacts.

Lemma console_sorted (st : Q) (logs : option (list ConsoleLogEntry)) :
  StronglySorted (ascending c_relativeMs) (App.normalizeConsole st logs).
Proof.
  unfold App.normalizeConsole.
  set (l := map _ _).
  assert (Hrel : Forall (fun e => c_relativeMs e = c_timestamp e - st) l).
  { subst l. apply Forall_map. apply Forall_forall. reflexivity. }
  pose proof (sort_sorted c_timestamp l) as Hs.
  pose proof (sort_perm c_timestamp l) as Hp.
  change (fun a b => c_timestamp a - c_timestamp b)
    with (byKey c_timestamp).
  assert (Hrel' : Forall (fun e => c_relativeMs e = c_timestamp e - st)
                         (sort (byKey c_timestamp) l)).
  { rewrite Forall_forall in *. intros e He. apply Hrel.
    eapply Permutation_in; eauto. }
  clear Hrel Hp. revert Hrel'.
  induction Hs as [|a r Hr IH Ha]; intro Hrel; constructor.
  - apply IH. now inversion Hrel.
  - inversion Hrel as [|? ? Hra Hrr]; subst.
    rewrite Forall_forall in *. intros b Hb.
    unfold ascending in *. rewrite Hra, (Hrr b Hb).
    specialize (Ha b Hb). lra.
Qed.

Lemma network_sorted (st : Q) (nd : App.NetworkData) :
  StronglySorted (ascending n_relativeMs) (App.normalizeNetwork st nd).
Proof.
  apply (sort_sorted n_relativeMs).
Qed.

End NormalizeFacts.

(** C8. After normalisation both lists are sorted ascending by
    [relativeMs], negative values included: every entry is at most every
    later one.  The lists hold exactly the received entries, a console
    entry with [relativeMs] its timestamp minus the session start, a
    network entry with [relativeMs] taken from its wall clock when it has
    one, else from its timestamp (both in seconds), minus the session
    start.  The viewers read the lists without reordering them: the
    processed entries are the list itself, and the entries a query shows
    are still in ascending order. *)
Theorem normalized_sorted `{URLApi}
  (st : Q) (logs : option (list ConsoleLogEntry)) (nd : App.NetworkData) :
  let consoleLogs := App.normalizeConsole st logs in
  let networkRequests := App.normalizeNetwork st nd in
  StronglySorted (JS.ascending c_relativeMs) consoleLogs /\
  StronglySorted (JS.ascending n_relativeMs) networkRequests /\
  Permutation consoleLogs
    (map (fun e => console_with_relativeMs e (c_timestamp e - st))
         (match logs with Some l => l | None => [] end)) /\
  Permutation networkRequests
    (map (fun e => network_with_relativeMs e (App.networkRelativeMs st e))
         (App.rawNet nd)) /\
  (forall e w, wallTime e = Some w -> ~ w == 0 ->
               App.networkRelativeMs st e = w * 1000 - st) /\
  (forall e s, wallTime e = None -> n_timestamp e = Some s -> ~ s == 0 ->
               App.networkRelativeMs st e = s * 1000 - st) /\
  map c_relativeMs
      (App.normalizeConsole 1000
         (Some [Examples.consoleAt None 1500; Examples.consoleAt None 200]))
  = [-800; 500] /\
  (forall t f,
      map Timeline.entry
          (Timeline.processedEntries ConsoleLevels.getFilterLevel consoleLogs)
      = consoleLogs /\
      StronglySorted (JS.ascending c_relativeMs)
        (map Timeline.entry
             (Timeline.visibleEntries (ConsoleViewer.query consoleLogs t f))))
  /\
  (forall t f,
      map Timeline.entry
          (Timeline.processedEntries Classifier.getFilterType networkRequests)
      = networkRequests /\
      StronglySorted (JS.ascending n_relativeMs)
        (map Timeline.entry
             (Timeline.visibleEntries
                (NetworkViewer.query networkRequests t f)))).
Proof.
  cbv zeta.
  pose proof (NormalizeFacts.console_sorted st logs) as Hc.
  pose proof (NormalizeFacts.network_sorted st nd) as Hn.
  repeat match goal with |- _ /\ _ => split end; auto.
  - apply (SortFacts.sort_perm c_timestamp).
  - apply (SortFacts.sort_perm n_relativeMs).
  - intros e w Hw Hnz. unfold App.networkRelativeMs. rewrite Hw. simpl.
    destruct (Qeq_bool w 0) eqn:Hz; [|reflexivity].
    apply Qeq_bool_iff in Hz. contradiction.
  - intros e s Hw Hs Hnz. unfold App.networkRelativeMs. rewrite Hw, Hs. simpl.
    destruct (Qeq_bool s 0) eqn:Hz; [|reflexivity].
    apply Qeq_bool_iff in Hz. contradiction.
  - intros t f. split.
    + apply TimelineFacts.processFrom_entries.
    + now apply SortFacts.query_keeps_order.
  - intros t f. split.
    + apply TimelineFacts.processFrom_entries.
    + now apply SortFacts.query_keeps_order.
Qed.

(** C10. A network record with neither a wall clock nor a timestamp is
    given [relativeMs] 0.  In the normalised list it stands with every
    entry before it at [relativeMs] at most 0 and every entry after it at
    least 0, and at every playback time from 0 on it is among the
    entries shown under the wildcard filter. *)
Theorem missing_clock_is_zero `{URLApi}
  (st : Q) (nd : App.NetworkData) (e : NetworkLogEntry) :
  wallTime e = None ->
  n_timestamp e = None ->
  In e (App.rawNet nd) ->
  App.networkRelativeMs st e = 0 /\
  (exists before after,
      App.normalizeNetwork st nd
      = before ++ network_with_relativeMs e 0 :: after /\
      Forall (fun a => n_relativeMs a <= 0) before /\
      Forall (fun a => 0 <= n_relativeMs a) after) /\
  (forall t, 0 <= t ->
     exists pe,
       In pe (Timeline.visibleEntries
                (NetworkViewer.query (App.normalizeNetwork st nd) t "all")) /\
       Timeline.entry pe = network_with_relativeMs e 0).
Proof.
  intros Hw Hs Hin.
  assert (Hz : App.networkRelativeMs st e = 0).
  { unfold App.networkRelativeMs. now rewrite Hw, Hs. }
  assert (Hmem : In (network_with_relativeMs e 0)
                    (App.normalizeNetwork st nd)).
  { unfold App.normalizeNetwork.
    apply (Permutation_in _ (Permutation_sym (SortFacts.sort_perm n_relativeMs _))).
    rewrite <- Hz. apply in_map_iff. now exists e. }
  split; [exact Hz|]. split.
  - destruct (in_split _ _ Hmem) as (before & after & Heq).
    exists before, after. split; [exact Heq|].
    pose proof (NormalizeFacts.network_sorted st nd) as Hsorted.
    rewrite Heq in Hsorted.
    apply SortFacts.sorted_split in Hsorted. exact Hsorted.
  - intros t Ht.
    apply In_nth_error in Hmem as [k Hk].
    exists {| Timeline.entry := network_with_relativeMs e 0;
              Timeline.index := Z.of_nat (0 + k);
              Timeline.filterKey :=
                Classifier.getFilterType (network_with_relativeMs e 0) |}.
    split; [|reflexivity].
    unfold NetworkViewer.query.
    apply TimelineFacts.query_visible_In. simpl. repeat split; auto.
    apply nth_error_In with (n := k).
    apply TimelineFacts.processFrom_nth.
    eexists. split; [exact Hk | reflexivity].
Qed.

(** ** Claims about the resource classifier *)

Module ClassifierFacts.
Import JS Classifier.
Local Open Scope string_scope.

(** The categories a request can be filed under: every filter button but
    the wildcard. *)
Lemma concrete_categories :
  tl FILTER_TYPES =
  ["fetch"; "js"; "css"; "img"; "doc"; "font"; "media"; "ws"; "other"].
Proof. reflexivity. Qed.

Lemma lookup_In {V : Type} (table : list (string * V)) (k : string) (v : V) :
  lookup table k = Some v -> In (k, v) table.
Proof.
  induction table as [|[k' v'] rest IH]; simpl; [discriminate|].
  destruct (String.eqb_spec k' k) as [-> | Hne].
  - intros [= ->]. now left.
  - intro Hl. right. now apply IH.
Qed.

Lemma first_type_In (table : list (string * list string)) (r k : string) :
  first_type table r = Some k -> In k (map fst table).
Proof.
  induction table as [|[k' ts] rest IH]; simpl; [discriminate|].
  destruct (includes ts r).
  - intros [= ->]. now left.
  - intro Hf. right. now apply IH.
Qed.

Lemma ext_category_concrete (pathname mapped : string) :
  ext_category pathname = Some mapped -> In mapped (tl FILTER_TYPES).
Proof.
  unfold ext_category.
  destruct (lastIndexOf _ _) as [dot|]; [|discriminate].
  destruct (lookup _ _) as [m|] eqn:Hl; [|discriminate].
  destruct (truthy_str (Some m)); [|discriminate].
  intros [= <-]. apply lookup_In in Hl.
  assert (Hv : In m (map snd STATIC_EXT_MAP))
    by (apply in_map_iff; now exists (toLowerCase (slice_from dot pathname), m)).
  clear Hl. simpl in Hv. simpl.
  repeat (destruct Hv as [<- | Hv]; [tauto|]). destruct Hv.
Qed.

(** The classifier always answers with one of the concrete categories. *)
Lemma getFilterType_concrete `{URLApi} (e : NetworkLogEntry) :
  In (getFilterType e) (tl FILTER_TYPES).
Proof.
  unfold getFilterType.
  destruct (_ || _).
  - destruct (URL_pathname _ _) as [pathname|]; [|simpl; tauto].
    destruct (ext_category pathname) as [mapped|] eqn:Hext; [|simpl; tauto].
    eapply ext_category_concrete; eauto.
  - destruct (first_type _ _) as [k|] eqn:Hf; [|simpl; tauto].
    apply first_type_In in Hf. simpl in Hf. simpl.
    repeat (destruct Hf as [<- | Hf]; [tauto|]). destruct Hf.
Qed.

Lemma lastIndexOf_app (c : ascii) (p s : string) (i : nat) :
  lastIndexOf c s = Some i ->
  lastIndexOf c (p ++ s) = Some (String.length p + i)%nat.
Proof.
  intro Hs. induction p as [|a p IH]; simpl; [exact Hs|].
  now rewrite IH.
Qed.

Lemma slice_from_app (p s : string) :
  slice_from (String.length p) (p ++ s) = s.
Proof.
  induction p as [|a p IH]; simpl; [now destruct s|exact IH].
Qed.

(** A path that ends in an extension of the table gets the extension's
    category, whatever the case of its letters. *)
Lemma ext_category_suffix (p ext mapped : string) :
  lastIndexOf "."%char ext = Some 0%nat ->
  lookup STATIC_EXT_MAP (toLowerCase ext) = Some mapped ->
  truthy_str (Some mapped) = true ->
  ext_category (p ++ ext) = Some mapped.
Proof.
  intros Hdot Hl Ht. unfold ext_category.
  rewrite (lastIndexOf_app _ p ext 0 Hdot), Nat.add_0_r, slice_from_app.
  now rewrite Hl, Ht.
Qed.

(** A processed entry carries the category of its own entry. *)
Lemma processed_category {E : Type} (category : E -> string) (es : list E)
      (pe : Timeline.Processed) :
  In pe (Timeline.processedEntries category es) ->
  Timeline.filterKey pe = category (Timeline.entry pe).
Proof.
  intro Hin. apply In_nth_error in Hin as [k Hk].
  apply TimelineFacts.processFrom_nth in Hk as (e & _ & ->). reflexivity.
Qed.

(** Filing the elements of a list under their own key, one bin per key
    of a duplicate-free list that holds every key in use, only reorders
    the list. *)
Lemma bins_cons {A : Type} (x : A) (k : string) (bin : string -> list A)
      (cs : list string) :
  NoDup cs -> In k cs ->
  Permutation
    (List.concat (map (fun c => if k =? c then x :: bin c else bin c) cs))
    (x :: List.concat (map bin cs)).
Proof.
  induction 1 as [|c cs Hc Hnd IH]; intros Hk; [destruct Hk|].
  cbn [map List.concat].
  destruct (String.eqb_spec k c) as [-> | Hne].
  - simpl. constructor. apply Permutation_app_head.
    rewrite (map_ext_in _ bin); [reflexivity|].
    intros c' Hc'. destruct (String.eqb_spec c c') as [<- | _];
      [contradiction | reflexivity].
  - destruct Hk as [-> | Hk]; [contradiction|].
    rewrite (IH Hk). apply Permutation_sym, Permutation_middle.
Qed.

Lemma bins_partition {A : Type} (key : A -> string) (cs : list string)
      (l : list A) :
  NoDup cs -> (forall x, In x l -> In (key x) cs) ->
  Permutation l
    (List.concat (map (fun c => filter (fun x => key x =? c) l) cs)).
Proof.
  intros Hnd. induction l as [|x l IH]; intro Hkeys.
  - simpl. clear. induction cs as [|c cs IHcs]; simpl; [constructor|].
    exact IHcs.
  - simpl.
    rewrite (bins_cons x (key x) (fun c => filter (fun y => key y =? c) l))
      by (auto; apply Hkeys; now left).
    constructor. apply IH. intros y Hy. apply Hkeys. now right.
Qed.

End ClassifierFacts.

(** C4. Filter completeness in the network viewer.  At every playback
    time, an entry is visible under the wildcard exactly when it is
    visible under some concrete category; no entry is visible under two
    different concrete categories; and every entry visible under the
    wildcard is visible under exactly one concrete category, the one the
    classifier gives its event.  Put end to end, the per-category lists
    are the wildcard list reordered. *)
Theorem filter_completeness `{URLApi}
  (entries : list NetworkLogEntry) (t : Q) :
  let visible f :=
    Timeline.visibleEntries (NetworkViewer.query entries t f) in
  let concrete := tl Classifier.FILTER_TYPES in
  (forall pe, In pe (visible "all") <->
              exists c, In c concrete /\ In pe (visible c))
  /\
  (forall c1 c2 pe, In c1 concrete -> In c2 concrete -> c1 <> c2 ->
                    In pe (visible c1) -> ~ In pe (visible c2))
  /\
  (forall pe, In pe (visible "all") ->
              let c := Classifier.getFilterType (Timeline.entry pe) in
              In c concrete /\ In pe (visible c) /\
              forall c', In c' concrete -> In pe (visible c') -> c' = c)
  /\
  Permutation (visible "all") (List.concat (map visible concrete)).
Proof.
  cbv zeta. unfold NetworkViewer.query.
  assert (Hnot_all : forall c, In c (tl Classifier.FILTER_TYPES) ->
                               c <> "all").
  { intros c Hc ->. simpl in Hc.
    repeat (destruct Hc as [Hc | Hc]; [discriminate|]). destruct Hc. }
  split; [|split; [|split]].
  - intro pe. rewrite TimelineFacts.query_visible_In. split.
    + intros (Hin & Hle & _).
      exists (Classifier.getFilterType (Timeline.entry pe)).
      split; [apply ClassifierFacts.getFilterType_concrete|].
      apply TimelineFacts.query_visible_In. repeat split; auto.
      right. now apply ClassifierFacts.processed_category with (es := entries).
    + intros (c & _ & Hv).
      apply TimelineFacts.query_visible_In in Hv as (Hin & Hle & _).
      repeat split; auto.
  - intros c1 c2 pe H1 H2 Hne Hv1 Hv2.
    apply TimelineFacts.query_visible_In in Hv1 as (_ & _ & [-> | Hk1]);
      [now apply (Hnot_all "all")|].
    apply TimelineFacts.query_visible_In in Hv2 as (_ & _ & [-> | Hk2]);
      [now apply (Hnot_all "all")|].
    congruence.
  - intros pe Hv.
    apply TimelineFacts.query_visible_In in Hv as (Hin & Hle & _).
    pose proof (ClassifierFacts.processed_category _ _ _ Hin) as Hkey.
    split; [apply ClassifierFacts.getFilterType_concrete|]. split.
    + apply TimelineFacts.query_visible_In. repeat split; auto.
    + intros c' Hc' Hv'.
      apply TimelineFacts.query_visible_In in Hv' as (_ & _ & [-> | Hk]);
        [now exfalso; apply (Hnot_all "all")|].
      congruence.
  - set (V := Timeline.visibleEntries
                (Timeline.query n_relativeMs Classifier.getFilterType
                                entries t "all")).
    rewrite (map_ext_in _
               (fun c => filter (fun pe => (Timeline.filterKey pe =? c)%string)
                                V)).
    + apply ClassifierFacts.bins_partition.
      * repeat constructor; simpl; intuition discriminate.
      * intros pe Hpe. subst V.
        apply TimelineFacts.query_visible_In in Hpe as (Hin & _ & _).
        rewrite (ClassifierFacts.processed_category _ _ _ Hin).
        apply ClassifierFacts.getFilterType_concrete.
    + intros c Hc. subst V. rewrite !TimelineFacts.query_unfold.
      cbv zeta. cbn [Timeline.visibleEntries].
      destruct (String.eqb_spec c "all") as [-> | _];
        [now exfalso; apply (Hnot_all "all") | reflexivity].
Qed.

(** C5. The classifier is a total function of the entry (and of what the
    platform's URL parser answers).  An entry declared XHR whose URL has
    a path ending in [.png] is an image, whatever follows the path in
    the URL; an entry declared Script is js, whatever its URL; an entry
    declared XHR whose URL does not parse is fetch; and an entry whose
    declared type, taken as empty when absent, is none of the types of
    the table is other.  On every entry the answer is one of the nine
    concrete categories. *)
Theorem classifier_cases `{URLApi} (e : NetworkLogEntry) :
  (forall p, resourceType e = Some "XHR" ->
             URL_pathname (entry_url e) "http://x" = Some (p ++ ".png")%string ->
             Classifier.getFilterType e = "img")
  /\
  (resourceType e = Some "Script" -> Classifier.getFilterType e = "js")
  /\
  (resourceType e = Some "XHR" ->
   URL_pathname (entry_url e) "http://x" = None ->
   Classifier.getFilterType e = "fetch")
  /\
  (~ In (JS.or_else (resourceType e) EmptyString)
        (List.concat (map snd Classifier.TYPE_MAP)) ->
   Classifier.getFilterType e = "other")
  /\
  In (Classifier.getFilterType e) (tl Classifier.FILTER_TYPES).
Proof.
  split; [|split; [|split; [|split]]];
    [| | | |apply ClassifierFacts.getFilterType_concrete];
    unfold Classifier.getFilterType.
  - intros p -> ->. simpl.
    now rewrite (ClassifierFacts.ext_category_suffix p ".png" "img").
  - intros ->. reflexivity.
  - intros -> ->. reflexivity.
  - intro Hnone. simpl in Hnone.
    set (r := JS.or_else (resourceType e) EmptyString) in *.
    assert (Hneq : forall s, In s ["XHR"; "Fetch"; "Script"; "Stylesheet";
                                   "Image"; "Document"; "Font"; "Media";
                                   "WebSocket"] -> (r =? s)%string = false).
    { intros s Hs. apply String.eqb_neq. intros ->. apply Hnone.
      simpl in Hs. tauto. }
    unfold Classifier.first_type, Classifier.TYPE_MAP, JS.includes. simpl.
    rewrite !Hneq by (simpl; tauto). reflexivity.
Qed.

(** ** Claims about the value renderer *)

Module RendererFacts.
Import JS Renderer.
Local Open Scope string_scope.

(** The rendering of a preview with at least one property. *)
Lemma renderPreview_properties
      (subtype description : option string) (overflow : option bool)
      (p : PropertyPreviewValue) (ps : list PropertyPreviewValue)
      (className : option string) :
  exists opening body,
    renderPreview (mkPreview subtype description overflow (Some (p :: ps)))
                  className
    = opening ++ body
        ++ (match overflow with Some true => ", ..." | _ => EmptyString end)
        ++ (if is_subtype subtype "array" then "]" else "}").
Proof.
  eexists. eexists. cbn [renderPreview]. reflexivity.
Qed.

Lemma append_assoc (a b c : string) : (a ++ b) ++ c = a ++ b ++ c.
Proof.
  induction a as [|x a IH]; simpl; [reflexivity|now rewrite IH].
Qed.

End RendererFacts.

(** C6, counterexample.  An array preview whose overflow flag is set and
    whose property list is present and empty renders as the two
    brackets alone: no ellipsis marker stands before the closing
    bracket.  The same holds of a plain-object preview. *)
Lemma overflow_marker_counterexample :
  Renderer.renderPreview (Examples.emptyOverflowed (Some "array")) None
  = "[]" /\
  JS.str_includes "..."
    (Renderer.renderPreview (Examples.emptyOverflowed (Some "array")) None)
  = false /\
  Renderer.renderRemoteObject
    (Some (Examples.objectOf (Examples.emptyOverflowed None) (Some "Map")))
  = "Map {}".
Proof. repeat split. Qed.

(** C6, as the code has it.  The number 42 renders as a span whose text
    is 42; the array preview with number properties 1 and 2 renders as
    markup whose text is [1, 2], and with the overflow flag as markup
    whose text is [1, 2, ...]; every preview whose overflow flag is set
    and whose property list is not empty renders as text that ends with
    the ellipsis marker followed by the closing bracket; and a preview
    whose property list is absent or empty renders as the empty
    brackets, or as the class name and empty braces, whatever its
    overflow flag. *)
Theorem render_values :
  (Renderer.renderRemoteObject (Some Examples.number42)
   = Renderer.span "text-gh-blue-num" "42" /\
   JS.str_includes "42" (Renderer.renderRemoteObject (Some Examples.number42))
   = true /\
   Renderer.textContent (Renderer.renderRemoteObject (Some Examples.number42))
   = "42")
  /\
  (Renderer.textContent
     (Renderer.renderRemoteObject
        (Some (Examples.objectOf (Examples.array12 None) (Some "Array"))))
   = "[1, 2]" /\
   Renderer.textContent
     (Renderer.renderRemoteObject
        (Some (Examples.objectOf (Examples.array12 (Some true))
                                 (Some "Array"))))
   = "[1, 2, ...]")
  /\
  (forall subtype description p ps className,
      exists before,
        Renderer.renderPreview
          (mkPreview subtype description (Some true) (Some (p :: ps)))
          className
        = (before ++ ", ..."
             ++ (if Renderer.is_subtype subtype "array" then "]" else "}"))
          %string)
  /\
  (forall subtype description overflow properties className,
      properties = None \/ properties = Some [] ->
      Renderer.renderPreview
        (mkPreview subtype description overflow properties) className
      = if Renderer.is_subtype subtype "array" then "[]"
        else if JS.truthy_str className
             then (Renderer.hole className ++ " {}")%string
             else "{}").
Proof.
  split; [|split; [|split]].
  - repeat split.
  - split; reflexivity.
  - intros subtype description p ps className.
    destruct (RendererFacts.renderPreview_properties
                subtype description (Some true) p ps className)
      as (opening & body & ->).
    exists (opening ++ body)%string.
    now rewrite RendererFacts.append_assoc.
  - intros subtype description overflow properties className [-> | ->];
      reflexivity.
Qed.

(** Run of C6: the empty overflowed preview of a Map is in the range of
    the last part, and renders as the class name and empty braces. *)
Lemma render_values_witness :
  Renderer.renderPreview (Examples.emptyOverflowed None) (Some "Map")
  = "Map {}".
Proof.
  destruct render_values as (_ & _ & _ & Hempty).
  exact (Hempty None None (Some true) (Some []) (Some "Map")
                (or_intror eq_refl)).
Defined.

(** ** Claims about the marker projector *)

Module MarkerFacts.
Import JS App.
Local Open Scope string_scope.

Lemma slice0_length (n : nat) : forall s, (String.length (slice0 n s) <= n)%nat.
Proof.
  induction n as [|n IH]; intros [|c r]; simpl; try lia.
  specialize (IH r). lia.
Qed.

Lemma slice0_short (n : nat) : forall s,
  (String.length s <= n)%nat -> slice0 n s = s.
Proof.
  induction n as [|n IH]; intros [|c r]; simpl; intro Hl;
    try reflexivity; try lia.
  rewrite IH; [reflexivity | lia].
Qed.

Lemma marker_level_getLevel (e : ConsoleLogEntry) :
  marker_level e = ConsoleLevels.getLevel e.
Proof.
  unfold marker_level, ConsoleLevels.getLevel, ConsoleLevels.isNewFormat,
    ConsoleLevels.source_is.
  destruct (c_source e); reflexivity.
Qed.

Lemma console_loop (consoleLogs : list ConsoleLogEntry) : forall m,
  fold_left console_step consoleLogs m =
  (m ++ map error_marker
          (filter (fun e => ConsoleLevels.getLevel e =? "error") consoleLogs))
  %list.
Proof.
  induction consoleLogs as [|e rest IH]; intro m; simpl.
  - now rewrite app_nil_r.
  - rewrite IH. unfold console_step. rewrite marker_level_getLevel.
    destruct (ConsoleLevels.getLevel e =? "error"); [|reflexivity].
    unfold push. simpl. now rewrite <- app_assoc.
Qed.

Lemma network_loop (networkRequests : list NetworkLogEntry) : forall m,
  fold_left network_step networkRequests m =
  (m ++ map request_marker networkRequests)%list.
Proof.
  induction networkRequests as [|e rest IH]; intro m; simpl.
  - now rewrite app_nil_r.
  - rewrite IH. unfold network_step, push. now rewrite <- app_assoc.
Qed.

End MarkerFacts.

(** C7, counterexample.  A message of the browser itself at level
    warning, or with no level at all, gets no marker, so that source
    kind is not always treated as an error; and the marker of an
    exception whose message has 100 characters carries a label of 87
    characters, which is not the message cut to 80. *)
Lemma markers_counterexample :
  App.markers [Examples.browserMessage (Some "warning") "Deprecated API"] []
  = [] /\
  App.markers [Examples.browserMessage None "Deprecated API"] [] = [] /\
  exists m,
    App.markers [Examples.exceptionOf (Examples.letters 100)] [] = [m] /\
    String.length (label m) = 87%nat /\
    label m <> JS.slice0 80 (Examples.letters 100).
Proof.
  split; [reflexivity|]. split; [reflexivity|].
  eexists. split; [reflexivity|]. split; [reflexivity|].
  vm_compute. discriminate.
Qed.

(** C7, as the code has it.  The markers are, in order, one red marker
    for every console event whose level is error, then one blue marker
    for every network event, whatever its status or error.  The level of
    an exception is always error; the level of a message of the browser
    itself is its own level, info when it has none.  A red marker is
    labelled with the word Error, a colon and a space, followed by the
    message (else the description of the first argument) cut to at most
    80 characters; a blue marker is labelled with the method, a space
    and the URL, the whole cut to at most 80 characters. *)
Theorem markers_projection
  (consoleLogs : list ConsoleLogEntry)
  (networkRequests : list NetworkLogEntry) :
  App.markers consoleLogs networkRequests
  = (map App.error_marker
         (filter (fun e => (ConsoleLevels.getLevel e =? "error")%string)
                 consoleLogs)
     ++ map App.request_marker networkRequests)%list
  /\
  (forall e, In e consoleLogs -> ConsoleLevels.getLevel e = "error" ->
             In (App.error_marker e) (App.markers consoleLogs networkRequests))
  /\
  (forall e, In e networkRequests ->
             In (App.request_marker e)
                (App.markers consoleLogs networkRequests))
  /\
  (forall e : ConsoleLogEntry,
      (c_source e = Some "exception" -> ConsoleLevels.getLevel e = "error") /\
      (c_source e = Some "browser" ->
       ConsoleLevels.getLevel e = JS.or_else (c_level e) "info"))
  /\
  (forall e : ConsoleLogEntry,
      color (App.error_marker e) = "#f85149" /\
      timeMs (App.error_marker e) = c_relativeMs e /\
      label (App.error_marker e)
      = ("Error: " ++ JS.slice0 80 (App.marker_message e))%string /\
      (String.length (JS.slice0 80 (App.marker_message e)) <= 80)%nat /\
      (String.length (App.marker_message e) <= 80 ->
       label (App.error_marker e)
       = ("Error: " ++ App.marker_message e)%string)%nat)
  /\
  (forall e : NetworkLogEntry,
      color (App.request_marker e) = "#58a6ff" /\
      timeMs (App.request_marker e) = n_relativeMs e /\
      label (App.request_marker e)
      = JS.slice0 80
          (JS.or_else (JS.or_opt (request_method e) (n_method e)) "GET"
             ++ " " ++ entry_url e)%string /\
      (String.length (label (App.request_marker e)) <= 80)%nat).
Proof.
  assert (Heq : App.markers consoleLogs networkRequests
                = (map App.error_marker
                       (filter (fun e => (ConsoleLevels.getLevel e =? "error")%string)
                               consoleLogs)
                   ++ map App.request_marker networkRequests)%list).
  { unfold App.markers.
    now rewrite MarkerFacts.network_loop, MarkerFacts.console_loop. }
  split; [exact Heq|]. rewrite Heq.
  split; [|split; [|split; [|split]]].
  - intros e He Hlevel. apply in_or_app. left. apply in_map.
    apply filter_In. split; [exact He|]. now apply String.eqb_eq.
  - intros e He. apply in_or_app. right. now apply in_map.
  - intro e. unfold ConsoleLevels.getLevel, ConsoleLevels.isNewFormat,
      ConsoleLevels.source_is.
    split; intros ->; reflexivity.
  - intro e. repeat split.
    + apply MarkerFacts.slice0_length.
    + intro Hshort. unfold App.error_marker. cbn [label].
      now rewrite MarkerFacts.slice0_short.
  - intro e. repeat split. apply MarkerFacts.slice0_length.
Qed.

(** ** Runs of the claims on concrete input *)

(** Run of C10: of two received records, the one without any clock is
    given [relativeMs] 0 and is shown at playback time 0. *)
Lemma missing_clock_is_zero_witness :
  let e := Examples.networkAt (Some "Image") None 7 in
  let nd := App.NdArray [Scenario.networkEvent; e] in
  App.networkRelativeMs 1000 e = 0 /\
  exists pe,
    In pe (Timeline.visibleEntries
             (NetworkViewer.query (H := SimpleURL.api)
                (App.normalizeNetwork 1000 nd) 0 "all")) /\
    Timeline.entry pe = network_with_relativeMs e 0.
Proof.
  cbv zeta.
  destruct (missing_clock_is_zero (H := SimpleURL.api) 1000
              (App.NdArray [Scenario.networkEvent;
                            Examples.networkAt (Some "Image") None 7])
              (Examples.networkAt (Some "Image") None 7)
              eq_refl eq_refl (or_intror (or_introl eq_refl)))
    as (Hzero & _ & Hshown).
  split; [exact Hzero|].
  apply Hshown. apply Qle_refl.
Defined.

(** Run of C5 with the small URL parser: a fetch of a picture with a
    query string, a script, a fetch of a URL with no host, a ping. *)
Lemma classifier_cases_witness :
  Classifier.getFilterType (H := SimpleURL.api)
    (Examples.networkAt (Some "XHR")
       (Some "https://cdn.example.com/img/a.png?x=1") 0) = "img" /\
  Classifier.getFilterType (H := SimpleURL.api)
    (Examples.networkAt (Some "Script")
       (Some "https://cdn.example.com/img/a.png?x=1") 0) = "js" /\
  Classifier.getFilterType (H := SimpleURL.api)
    (Examples.networkAt (Some "XHR") (Some "http://") 0) = "fetch" /\
  Classifier.getFilterType (H := SimpleURL.api)
    (Examples.networkAt (Some "Ping") None 0) = "other".
Proof.
  split; [|split; [|split]].
  - destruct (classifier_cases (H := SimpleURL.api)
                (Examples.networkAt (Some "XHR")
                   (Some "https://cdn.example.com/img/a.png?x=1") 0))
      as (Himg & _).
    apply (Himg "/img/a"); reflexivity.
  - destruct (classifier_cases (H := SimpleURL.api)
                (Examples.networkAt (Some "Script")
                   (Some "https://cdn.example.com/img/a.png?x=1") 0))
      as (_ & Hjs & _).
    apply Hjs. reflexivity.
  - destruct (classifier_cases (H := SimpleURL.api)
                (Examples.networkAt (Some "XHR") (Some "http://") 0))
      as (_ & _ & Hfetch & _).
    apply Hfetch; reflexivity.
  - destruct (classifier_cases (H := SimpleURL.api)
                (Examples.networkAt (Some "Ping") None 0))
      as (_ & _ & _ & Hother & _).
    apply Hother. vm_compute. intuition discriminate.
Defined.

(** Run of C4: a fetched picture, visible under the wildcard at playback
    time 1000, is visible under the image filter. *)
Lemma filter_completeness_witness :
  let entries :=
    [Examples.networkAt (Some "XHR")
       (Some "https://cdn.example.com/img/a.png?x=1") 100;
     Examples.networkAt (Some "Script") None 200] in
  In {| Timeline.entry :=
          Examples.networkAt (Some "XHR")
            (Some "https://cdn.example.com/img/a.png?x=1") 100;
        Timeline.index := 0; Timeline.filterKey := "img" |}
     (Timeline.visibleEntries
        (NetworkViewer.query (H := SimpleURL.api) entries 1000 "img")).
Proof.
  cbv zeta.
  pose proof (filter_completeness (H := SimpleURL.api)
                [Examples.networkAt (Some "XHR")
                   (Some "https://cdn.example.com/img/a.png?x=1") 100;
                 Examples.networkAt (Some "Script") None 200] 1000) as Hc.
  cbv zeta in Hc. destruct Hc as (_ & _ & Hone & _).
  destruct (Hone {| Timeline.entry :=
                      Examples.networkAt (Some "XHR")
                        (Some "https://cdn.example.com/img/a.png?x=1") 100;
                    Timeline.index := 0; Timeline.filterKey := "img" |})
    as (_ & Hvisible & _).
  - vm_compute. left. reflexivity.
  - exact Hvisible.
Defined.

(** Run of C7: an exception gets its red marker. *)
Lemma markers_projection_witness :
  In {| timeMs := 0; color := "#f85149"; label := "Error: boom" |}
     (App.markers [Examples.exceptionOf "boom"] []).
Proof.
  destruct (markers_projection [Examples.exceptionOf "boom"] [])
    as (_ & Hred & _).
  apply (Hred (Examples.exceptionOf "boom")).
  - left. reflexivity.
  - reflexivity.
Defined.

(** * Further properties of the code *)

(** ** The timeline query on whole streams *)

Module TimelineMore.
Import JS JSFacts Timeline.

Lemma strongly_sorted_filter {A : Type} (R : A -> A -> Prop)
      (f : A -> bool) (l : list A) :
  StronglySorted R l -> StronglySorted R (filter f l).
Proof.
  induction 1 as [|x r Hr IH Hx]; simpl; [constructor|].
  destruct (f x); [|exact IH].
  constructor; [exact IH|].
  apply Forall_forall. intros a Ha. apply filter_In in Ha as [Ha _].
  rewrite Forall_forall in Hx. now apply Hx.
Qed.

Lemma strongly_sorted_once (c : Z) (l : list Z) :
  StronglySorted Z.lt l ->
  (List.length (filter (fun z => (z =? c)%Z) l) <= 1)%nat.
Proof.
  induction 1 as [|x r Hr IH Hx]; simpl; [lia|].
  destruct (Z.eqb_spec x c) as [-> | Hne]; [|exact IH].
  assert (Hnone : filter (fun z => (z =? c)%Z) r = []).
  { clear IH Hr. induction r as [|y r IHr]; simpl; [reflexivity|].
    inversion Hx as [|? ? Hy Hr']; subst.
    destruct (Z.eqb_spec y c) as [-> | _]; [lia | now apply IHr]. }
  rewrite Hnone. simpl. lia.
Qed.

Section Viewer.
Context {E : Type}.
Variable relativeMs : E -> Q.
Variable category : E -> string.

Local Abbreviation query := (query relativeMs category).
Local Abbreviation inTime := (inTime relativeMs).

Lemma process_indices (es : list E) : forall i,
  map index (processFrom category i es)
  = map Z.of_nat (seq i (List.length es)).
Proof.
  induction es as [|e es IH]; intro i; simpl; [reflexivity|].
  now rewrite IH.
Qed.

Lemma seq_increasing (n : nat) : forall i,
  StronglySorted Z.lt (map Z.of_nat (seq i n)).
Proof.
  induction n as [|n IH]; intro i; simpl; constructor; [apply IH|].
  apply Forall_forall. intros z Hz.
  apply in_map_iff in Hz as (j & <- & Hj). apply in_seq in Hj. lia.
Qed.

Lemma processed_increasing (es : list E) :
  StronglySorted (fun a b => (index a < index b)%Z)
                 (processedEntries category es).
Proof.
  unfold processedEntries.
  pose proof (seq_increasing (List.length es) 0) as Hs.
  rewrite <- (process_indices es 0) in Hs.
  induction (processFrom category 0 es) as [|pe l IH]; [constructor|].
  simpl in Hs. apply StronglySorted_inv in Hs as [Hl Hpe].
  constructor; [now apply IH|].
  rewrite Forall_map in Hpe. exact Hpe.
Qed.

Lemma sorted_map_index (l : list (@Processed E)) :
  StronglySorted (fun a b => (index a < index b)%Z) l ->
  StronglySorted Z.lt (map index l).
Proof.
  induction 1 as [|pe r Hr IH Hpe]; simpl; constructor; auto.
  now apply Forall_map.
Qed.

(** The visible entries as one filter over the processed entries. *)
Lemma query_visible_filter (es : list E) (t : Q) (f : string) :
  visibleEntries (query es t f)
  = filter (fun pe => (f =? "all")%string || (filterKey pe =? f)%string)
           (filter (inTime t) (processedEntries category es)).
Proof.
  rewrite TimelineFacts.query_unfold. cbv zeta. cbn [visibleEntries].
  rewrite TimelineFacts.scan_visible.
  destruct (f =? "all")%string; simpl; [|reflexivity].
  induction (filter _ _) as [|pe l IH]; simpl; [reflexivity|].
  now rewrite <- IH.
Qed.

Lemma filter_length_le {A : Type} (f : A -> bool) (l : list A) :
  (List.length (filter f l) <= List.length l)%nat.
Proof.
  induction l as [|x l IH]; simpl; [lia|]. destruct (f x); simpl; lia.
Qed.

Lemma filter_all {A : Type} (f : A -> bool) (l : list A) :
  (forall x, In x l -> f x = true) -> filter f l = l.
Proof.
  induction l as [|x l IH]; simpl; intro Hall; [reflexivity|].
  rewrite (Hall x) by now left. rewrite IH; [reflexivity|].
  intros y Hy. apply Hall. now right.
Qed.

Lemma filter_none {A : Type} (f : A -> bool) (l : list A) :
  (forall x, In x l -> f x = false) -> filter f l = [].
Proof.
  induction l as [|x l IH]; simpl; intro Hall; [reflexivity|].
  rewrite (Hall x) by now left. apply IH.
  intros y Hy. apply Hall. now right.
Qed.

Lemma processed_length (es : list E) : forall i,
  List.length (processFrom category i es) = List.length es.
Proof.
  induction es as [|e es IH]; intro i; simpl; [reflexivity|].
  now rewrite IH.
Qed.

(** In a sorted list the elements up to a bound are a prefix. *)
Lemma sorted_prefix (key : @Processed E -> Q) (t : Q)
      (l : list (@Processed E)) :
  StronglySorted (ascending key) l ->
  let k := List.length (filter (fun x => Qle_bool (key x) t) l) in
  filter (fun x => Qle_bool (key x) t) l = firstn k l /\
  Forall (fun x => t < key x) (skipn k l).
Proof.
  induction 1 as [|x r Hr IH Hx]; cbv zeta; simpl.
  - split; [reflexivity | constructor].
  - destruct (Qle_bool (key x) t) eqn:Hle; simpl.
    + destruct IH as [IH1 IH2]. split; [now rewrite <- IH1 | exact IH2].
    + apply Qle_bool_false_iff in Hle.
      assert (Hnone : filter (fun y => Qle_bool (key y) t) r = []).
      { apply filter_none. intros y Hy. apply Qle_bool_false_iff.
        rewrite Forall_forall in Hx. specialize (Hx y Hy).
        unfold ascending in Hx. lra. }
      rewrite Hnone. simpl. split; [reflexivity|].
      constructor; [exact Hle|].
      rewrite Forall_forall in *. intros y Hy. specialize (Hx y Hy).
      unfold ascending in Hx. lra.
Qed.

Lemma firstn_processed (es : list E) (k : nat) : forall i,
  firstn k (processFrom category i es) = processFrom category i (firstn k es).
Proof.
  revert k. induction es as [|e es IH]; intros [|k] i; simpl;
    try reflexivity.
  now rewrite IH.
Qed.

Lemma skipn_processed (es : list E) (k : nat) : forall i,
  map entry (skipn k (processFrom category i es)) = skipn k es.
Proof.
  revert k. induction es as [|e es IH]; intros [|k] i; simpl;
    try reflexivity.
  - now rewrite TimelineFacts.processFrom_entries.
  - apply IH.
Qed.

End Viewer.
End TimelineMore.

Module TimelineStreams.
Import JS JSFacts Timeline.

Lemma prefix_of_sorted {E : Type} (relativeMs : E -> Q)
      (category : E -> string) (es : list E) (t : Q) :
  StronglySorted (ascending relativeMs) es ->
  exists k,
    (k <= List.length es)%nat /\
    visibleEntries (query relativeMs category es t "all")
    = processedEntries category (firstn k es) /\
    Forall (fun e => relativeMs e <= t) (firstn k es) /\
    Forall (fun e => t < relativeMs e) (skipn k es) /\
    ViewerChrome.lastVisibleIndex (query relativeMs category es t "all")
    = (Z.of_nat k - 1)%Z.
Proof.
  intro Hs.
  pose proof (SortFacts.sorted_processed relativeMs category es 0 Hs) as Hp.
  destruct (TimelineMore.sorted_prefix
              (fun pe => relativeMs (entry pe)) t _ Hp) as [Hpre Hrest].
  set (k := List.length
              (filter (fun x => Qle_bool (relativeMs (entry x)) t)
                      (processFrom category 0 es))) in *.
  assert (Hk : (k <= List.length es)%nat).
  { subst k. rewrite <- (TimelineMore.processed_length category es 0).
    apply TimelineMore.filter_length_le. }
  assert (Hvis : visibleEntries (query relativeMs category es t "all")
                 = processedEntries category (firstn k es)).
  { rewrite TimelineFacts.query_visible_all. unfold processedEntries.
    rewrite <- TimelineMore.firstn_processed. exact Hpre. }
  exists k. split; [exact Hk|]. split; [exact Hvis|]. split; [|split].
  - rewrite <- (TimelineFacts.processFrom_entries category (firstn k es) 0).
    rewrite Forall_map, <- TimelineMore.firstn_processed, <- Hpre.
    apply Forall_forall. intros pe Hpe. apply filter_In in Hpe as [_ Hle].
    now apply Qle_bool_iff.
  - rewrite <- (TimelineMore.skipn_processed category es k 0).
    rewrite Forall_map. exact Hrest.
  - unfold ViewerChrome.lastVisibleIndex. cbv zeta. rewrite Hvis.
    unfold processedEntries.
    rewrite TimelineMore.processed_length, length_firstn, Nat.min_l by exact Hk.
    destruct k as [|k]; [reflexivity|].
    cbn [Nat.ltb Nat.leb].
    replace (S k - 1)%nat with k by lia.
    destruct (nth_error (firstn (S k) es) k) as [e|] eqn:He.
    + rewrite (proj2 (TimelineFacts.processFrom_nth category _ 0 k _)
                     (ex_intro _ e (conj He eq_refl))).
      cbn [index]. lia.
    + apply nth_error_None in He.
      rewrite length_firstn, Nat.min_l in He by exact Hk. lia.
Qed.

End TimelineStreams.

(** X1. On the normalised streams the visible entries under the
    wildcard are always the first [k] entries of the stream, indexed 0
    to [k - 1]: the events that have happened; the rest of the stream is
    strictly in the future; and the row the viewer scrolls to is row
    [k - 1] (none, -1, when nothing has happened yet). *)
Theorem visible_is_prefix `{URLApi}
  (st : Q) (logs : option (list ConsoleLogEntry)) (nd : App.NetworkData)
  (t : Q) :
  (exists k,
      (k <= List.length (App.normalizeConsole st logs))%nat /\
      Timeline.visibleEntries
        (ConsoleViewer.query (App.normalizeConsole st logs) t "all")
      = Timeline.processedEntries ConsoleLevels.getFilterLevel
          (firstn k (App.normalizeConsole st logs)) /\
      Forall (fun e => c_relativeMs e <= t)
             (firstn k (App.normalizeConsole st logs)) /\
      Forall (fun e => t < c_relativeMs e)
             (skipn k (App.normalizeConsole st logs)) /\
      ViewerChrome.lastVisibleIndex
        (ConsoleViewer.query (App.normalizeConsole st logs) t "all")
      = (Z.of_nat k - 1)%Z)
  /\
  (exists k,
      (k <= List.length (App.normalizeNetwork st nd))%nat /\
      Timeline.visibleEntries
        (NetworkViewer.query (App.normalizeNetwork st nd) t "all")
      = Timeline.processedEntries Classifier.getFilterType
          (firstn k (App.normalizeNetwork st nd)) /\
      Forall (fun e => n_relativeMs e <= t)
             (firstn k (App.normalizeNetwork st nd)) /\
      Forall (fun e => t < n_relativeMs e)
             (skipn k (App.normalizeNetwork st nd)) /\
      ViewerChrome.lastVisibleIndex
        (NetworkViewer.query (App.normalizeNetwork st nd) t "all")
      = (Z.of_nat k - 1)%Z).
Proof.
  split.
  - apply TimelineStreams.prefix_of_sorted, NormalizeFacts.console_sorted.
  - apply TimelineStreams.prefix_of_sorted, NormalizeFacts.network_sorted.
Qed.

(** X2. The nearest event is the most recent one that has happened.
    Either the reported index is -1 and every event in time lies 1500
    or more before the playback time; or it is the index of an event in
    time, less than 1500 before the playback time, that no event in time
    is later than and that every earlier-listed event in time is
    strictly before. *)
Theorem nearest_is_most_recent
  {E : Type} (relativeMs : E -> Q) (category : E -> string)
  (entries : list E) (t : Q) (f : string) :
  (Timeline.closestIndex (Timeline.query relativeMs category entries t f)
   = (-1)%Z /\
   forall e, In e entries -> relativeMs e <= t -> 1500 <= t - relativeMs e)
  \/
  (exists k e,
      Timeline.closestIndex (Timeline.query relativeMs category entries t f)
      = Z.of_nat k /\
      nth_error entries k = Some e /\
      relativeMs e <= t /\ t - relativeMs e < 1500 /\
      (forall e', In e' entries -> relativeMs e' <= t ->
                  relativeMs e' <= relativeMs e) /\
      (forall j e', (j < k)%nat -> nth_error entries j = Some e' ->
                    relativeMs e' <= t -> relativeMs e' < relativeMs e)).
Proof.
  assert (Habs : forall x, x <= t -> Qabs (x - t) == t - x).
  { intros x Hx. rewrite Qabs_neg by lra. lra. }
  destruct (TimelineFacts.query_closest_spec relativeMs category entries t f)
    as [[Hr Hfar] | (k & e & Hr & Hk & Hle & Hnear & Hmin & Hfirst)].
  - left. split; [exact Hr|].
    intros e He Hle. specialize (Hfar e He Hle).
    rewrite (Habs _ Hle) in Hfar. exact Hfar.
  - right. exists k, e.
    rewrite (Habs _ Hle) in Hnear.
    repeat split; auto.
    + intros e' He' Hle'. specialize (Hmin e' He' Hle').
      rewrite (Habs _ Hle), (Habs _ Hle') in Hmin. lra.
    + intros j e' Hj Hnth Hle'. specialize (Hfirst j e' Hj Hnth Hle').
      rewrite (Habs _ Hle), (Habs _ Hle') in Hfirst. lra.
Qed.

(** X3. Whatever the filter, the rows a viewer renders carry strictly
    increasing indices, so no two rows share a key; each row's index is
    the position of its entry in the stream and its category is the one
    of that entry; and at most one rendered row is the active one. *)
Theorem visible_rows_indexed
  {E : Type} (relativeMs : E -> Q) (category : E -> string)
  (entries : list E) (t : Q) (f : string) :
  StronglySorted Z.lt
    (map Timeline.index
         (Timeline.visibleEntries
            (Timeline.query relativeMs category entries t f)))
  /\
  (forall pe,
      In pe (Timeline.visibleEntries
               (Timeline.query relativeMs category entries t f)) ->
      exists k, Timeline.index pe = Z.of_nat k /\
                nth_error entries k = Some (Timeline.entry pe) /\
                Timeline.filterKey pe = category (Timeline.entry pe))
  /\
  (List.length
     (filter (ViewerChrome.isActive
                (Timeline.query relativeMs category entries t f))
             (Timeline.visibleEntries
                (Timeline.query relativeMs category entries t f)))
   <= 1)%nat.
Proof.
  assert (Hsorted : StronglySorted Z.lt
            (map Timeline.index
               (Timeline.visibleEntries
                  (Timeline.query relativeMs category entries t f)))).
  { rewrite TimelineMore.query_visible_filter.
    apply TimelineMore.sorted_map_index.
    do 2 apply TimelineMore.strongly_sorted_filter.
    apply TimelineMore.processed_increasing. }
  split; [exact Hsorted|]. split.
  - intros pe Hpe. apply TimelineFacts.query_visible_In in Hpe as (Hin & _ & _).
    destruct (TimelineFacts.processed_In category entries pe Hin) as (k & Hk & Hi).
    exists k. repeat split; auto.
    now apply ClassifierFacts.processed_category with (es := entries).
  - unfold ViewerChrome.isActive.
    set (c := Timeline.closestIndex _).
    set (l := Timeline.visibleEntries _) in *.
    pose proof (TimelineMore.strongly_sorted_once c _ Hsorted) as Hone.
    clear Hsorted.
    assert (Hlen : List.length
                     (filter (fun pe => (Timeline.index pe =? c)%Z) l)
                   = List.length
                       (filter (fun z => (z =? c)%Z) (map Timeline.index l))).
    { clear Hone. induction l as [|pe l IH]; simpl; [reflexivity|].
      destruct (Timeline.index pe =? c)%Z; simpl; now rewrite IH. }
    rewrite Hlen. exact Hone.
Qed.

(** X4. A filter never shows more rows than the wildcard, which never
    shows more than the stream holds; once the playback time has reached
    every event the wildcard shows the whole stream; and while it is
    before every event nothing is shown under any filter and no row is
    reported as nearest. *)
Theorem visible_count_bounds
  {E : Type} (relativeMs : E -> Q) (category : E -> string)
  (entries : list E) (t : Q) (f : string) :
  (ViewerChrome.visibleCount (Timeline.query relativeMs category entries t f)
   <= ViewerChrome.visibleCount
        (Timeline.query relativeMs category entries t "all"))%nat
  /\
  (ViewerChrome.visibleCount
     (Timeline.query relativeMs category entries t "all")
   <= List.length entries)%nat
  /\
  ((forall e, In e entries -> relativeMs e <= t) ->
   map Timeline.entry
       (Timeline.visibleEntries
          (Timeline.query relativeMs category entries t "all")) = entries)
  /\
  ((forall e, In e entries -> t < relativeMs e) ->
   Timeline.visibleEntries (Timeline.query relativeMs category entries t f)
   = [] /\
   Timeline.closestIndex (Timeline.query relativeMs category entries t f)
   = (-1)%Z).
Proof.
  unfold ViewerChrome.visibleCount.
  split; [|split; [|split]].
  - rewrite (TimelineMore.query_visible_filter _ _ _ _ f).
    rewrite TimelineFacts.query_visible_all.
    apply TimelineMore.filter_length_le.
  - rewrite TimelineFacts.query_visible_all.
    rewrite <- (TimelineMore.processed_length category entries 0).
    apply TimelineMore.filter_length_le.
  - intro Hall. rewrite TimelineFacts.query_visible_all.
    rewrite TimelineMore.filter_all.
    + apply TimelineFacts.processFrom_entries.
    + intros pe Hpe. apply Qle_bool_iff.
      destruct (TimelineFacts.processed_In category entries pe Hpe)
        as (k & Hk & _).
      apply Hall. eapply nth_error_In; eauto.
  - intro Hnone. split.
    + rewrite TimelineMore.query_visible_filter.
      rewrite (TimelineMore.filter_none (Timeline.inTime relativeMs t));
        [reflexivity|].
      intros pe Hpe. apply JSFacts.Qle_bool_false_iff.
      destruct (TimelineFacts.processed_In category entries pe Hpe)
        as (k & Hk & _).
      apply Hnone. eapply nth_error_In; eauto.
    + destruct (TimelineFacts.query_closest_spec relativeMs category
                  entries t f)
        as [[Hr _] | (k & e & _ & Hk & Hle & _)]; [exact Hr|].
      specialize (Hnone e (nth_error_In _ _ Hk)). lra.
Qed.

(** Run of X4: before the only event nothing is shown; after it the
    stream is shown whole. *)
Lemma visible_count_bounds_witness :
  Timeline.visibleEntries
    (ConsoleViewer.query [Examples.consoleAt None 500] 499 "all") = [] /\
  map Timeline.entry
      (Timeline.visibleEntries
         (ConsoleViewer.query [Examples.consoleAt None 500] 500 "all"))
  = [Examples.consoleAt None 500].
Proof.
  split.
  - destruct (visible_count_bounds c_relativeMs ConsoleLevels.getFilterLevel
                [Examples.consoleAt None 500] 499 "all")
      as (_ & _ & _ & Hnone).
    apply Hnone. intros e [<- | []]. reflexivity.
  - destruct (visible_count_bounds c_relativeMs ConsoleLevels.getFilterLevel
                [Examples.consoleAt None 500] 500 "all")
      as (_ & _ & Hall & _).
    apply Hall. intros e [<- | []]. apply Qle_refl.
Defined.

(** ** The console filters *)

(** X5. A console entry shown under the wildcard is shown under one of
    the seven level filters exactly when its filter level is one of the
    seven names; an entry of any other level (the level of an entry
    without source is whatever string it carries) is reachable under the
    wildcard only. *)
Theorem console_filter_coverage
  (entries : list ConsoleLogEntry) (t : Q) (pe : Timeline.Processed) :
  In pe (Timeline.visibleEntries (ConsoleViewer.query entries t "all")) ->
  ((exists c, In c (tl ConsoleLevels.FILTER_LEVELS) /\
              In pe (Timeline.visibleEntries
                       (ConsoleViewer.query entries t c)))
   <->
   In (ConsoleLevels.getFilterLevel (Timeline.entry pe))
      (tl ConsoleLevels.FILTER_LEVELS)).
Proof.
  unfold ConsoleViewer.query. intro Hall.
  apply TimelineFacts.query_visible_In in Hall as (Hin & Hle & _).
  pose proof (ClassifierFacts.processed_category _ _ _ Hin) as Hkey.
  split.
  - intros (c & Hc & Hv).
    apply TimelineFacts.query_visible_In in Hv as (_ & _ & [-> | Hk]).
    + simpl in Hc. exfalso.
      repeat (destruct Hc as [Hc | Hc]; [discriminate|]). destruct Hc.
    + now rewrite <- Hkey, Hk.
  - intro Hknown.
    exists (ConsoleLevels.getFilterLevel (Timeline.entry pe)).
    split; [exact Hknown|].
    apply TimelineFacts.query_visible_In. repeat split; auto.
Qed.

(** Run of X5: a warning as the browser protocol spells it, shown under
    the wildcard, is shown under none of the level filters. *)
Lemma console_filter_coverage_witness :
  ~ exists c, In c (tl ConsoleLevels.FILTER_LEVELS) /\
              In {| Timeline.entry := Examples.consoleAt (Some "warning") 5;
                    Timeline.index := 0; Timeline.filterKey := "warning" |}
                 (Timeline.visibleEntries
                    (ConsoleViewer.query
                       [Examples.consoleAt (Some "warning") 5] 10 c)).
Proof.
  intro Hsome.
  apply (console_filter_coverage
           [Examples.consoleAt (Some "warning") 5] 10
           {| Timeline.entry := Examples.consoleAt (Some "warning") 5;
              Timeline.index := 0; Timeline.filterKey := "warning" |})
    in Hsome.
  - vm_compute in Hsome. intuition discriminate.
  - vm_compute. left. reflexivity.
Defined.

(** ** The resource classifier on the two kinds of declared type *)

(** X6. An entry declared XHR or Fetch is filed under fetch or under
    one of the six categories of the extension table, never under ws or
    other.  An entry of any other declared type is filed by that type
    alone, whatever its URL and whatever the URL parser answers, and is
    never filed under fetch. *)
Theorem classifier_by_declared_type `{H1 : URLApi} (e : NetworkLogEntry) :
  let fetched :=
    (JS.or_else (resourceType e) EmptyString =? "XHR")%string
    || (JS.or_else (resourceType e) EmptyString =? "Fetch")%string in
  (fetched = true ->
   In (Classifier.getFilterType e)
      ["fetch"; "js"; "css"; "img"; "font"; "media"; "doc"])
  /\
  (fetched = false ->
   Classifier.getFilterType e <> "fetch" /\
   forall (H2 : URLApi) (e' : NetworkLogEntry),
     resourceType e' = resourceType e ->
     Classifier.getFilterType (H := H2) e'
     = Classifier.getFilterType (H := H1) e).
Proof.
  cbv zeta. unfold Classifier.getFilterType. split.
  - intros ->.
    destruct (URL_pathname _ _) as [pathname|]; [|simpl; tauto].
    destruct (Classifier.ext_category pathname) as [mapped|] eqn:Hext;
      [|simpl; tauto].
    unfold Classifier.ext_category in Hext.
    destruct (JS.lastIndexOf _ _) as [dot|]; [|discriminate].
    destruct (Classifier.lookup _ _) as [m|] eqn:Hl; [|discriminate].
    destruct (JS.truthy_str (Some m)); [|discriminate].
    injection Hext as <-. apply ClassifierFacts.lookup_In in Hl.
    assert (Hv : In m (map snd Classifier.STATIC_EXT_MAP))
      by (apply in_map_iff; eexists; split; [|exact Hl]; reflexivity).
    clear Hl. simpl in Hv. simpl.
    repeat (destruct Hv as [<- | Hv]; [tauto|]). destruct Hv.
  - intro Hf. split.
    + rewrite Hf.
      apply orb_false_iff in Hf as [Hx Hfe].
      unfold Classifier.first_type, Classifier.TYPE_MAP, JS.includes.
      cbn [existsb]. rewrite Hx, Hfe. cbn [orb].
      repeat match goal with
             | |- context [(?a =? ?b)%string] =>
                 destruct (a =? b)%string; [discriminate|]
             end.
      discriminate.
    + intros H2 e' ->. now rewrite Hf.
Qed.

(** Run of X6: a stylesheet whose URL looks like a script is css under
    the small URL parser, as under any other. *)
Lemma classifier_by_declared_type_witness :
  Classifier.getFilterType (H := SimpleURL.api)
    (Examples.networkAt (Some "Stylesheet") (Some "http://h/app.js") 0)
  <> "fetch".
Proof.
  pose proof (classifier_by_declared_type (H1 := SimpleURL.api)
                (Examples.networkAt (Some "Stylesheet")
                                    (Some "http://h/app.js") 0)) as Hc.
  cbv zeta in Hc. destruct Hc as [_ Hother].
  destruct (Hother eq_refl) as [Hne _]. exact Hne.
Defined.

(** ** The text formatters *)

Module FormatFacts.
Import JS Format.
Local Open Scope string_scope.

Lemma Qfloor_unique (x : Q) (z : Z) :
  inject_Z z <= x -> x < inject_Z (z + 1) -> Qfloor x = z.
Proof.
  intros Hlo Hhi.
  pose proof (Qfloor_le x) as H1. pose proof (Qlt_floor x) as H2.
  assert (Ha : (Qfloor x < z + 1)%Z) by (rewrite Zlt_Qlt; lra).
  assert (Hb : (z < Qfloor x + 1)%Z) by (rewrite Zlt_Qlt; lra).
  lia.
Qed.

(** Whole thousands of a number are the whole thousands of its whole
    part. *)
Lemma Qfloor_div_1000 (x : Q) : Qfloor (x / 1000) = (Qfloor x / 1000)%Z.
Proof.
  apply Qfloor_unique.
  - pose proof (Qfloor_le x) as H1.
    pose proof (Z.mul_div_le (Qfloor x) 1000 ltac:(lia)) as H2.
    rewrite Zle_Qle, inject_Z_mult in H2.
    apply Qle_shift_div_l; [reflexivity|].
    change (inject_Z 1000) with 1000 in H2. lra.
  - pose proof (Qlt_floor x) as H1.
    assert (H2 : (Qfloor x + 1 <= 1000 * (Qfloor x / 1000 + 1))%Z).
    { pose proof (Z.mod_pos_bound (Qfloor x) 1000 ltac:(lia)).
      pose proof (Z.div_mod (Qfloor x) 1000 ltac:(lia)). lia. }
    rewrite Zle_Qle, inject_Z_mult in H2.
    apply Qlt_shift_div_r; [reflexivity|].
    change (inject_Z 1000) with 1000 in H2. lra.
Qed.

Lemma max0_nonneg (x : Q) : 0 <= x -> max0 x = x.
Proof.
  intro Hx. unfold max0.
  destruct (Qle_bool 0 x) eqn:Hb; [reflexivity|].
  apply JSFacts.Qle_bool_false_iff in Hb. lra.
Qed.

Lemma max0_nonpos (x : Q) : x <= 0 -> max0 x == 0.
Proof.
  intro Hx. unfold max0.
  destruct (Qle_bool 0 x) eqn:Hb; [|reflexivity].
  apply Qle_bool_iff in Hb. lra.
Qed.

Lemma Qfloor_small (x : Q) : 0 <= x -> x < 1 -> Qfloor x = 0%Z.
Proof.
  intros H0 H1.
  apply Qfloor_unique;
    [change (inject_Z 0) with 0 | change (inject_Z (0 + 1)) with 1]; lra.
Qed.

(** The remainder by 1000 of a number that is not negative keeps the
    whole part's remainder. *)
Lemma floor_rem_1000 (ms : Q) :
  0 <= ms -> Qfloor (rem ms 1000) = (Qfloor ms mod 1000)%Z.
Proof.
  intro Hms. unfold rem.
  assert (Hq : 0 <= ms / 1000)
    by (apply Qle_shift_div_l; [reflexivity | lra]).
  destruct (Qle_bool 0 (ms / 1000)) eqn:Hb;
    [|apply JSFacts.Qle_bool_false_iff in Hb; lra].
  rewrite Qfloor_div_1000.
  pose proof (Z.div_mod (Qfloor ms) 1000 ltac:(lia)) as Hdm.
  pose proof (Qfloor_le ms) as H1. pose proof (Qlt_floor ms) as H2.
  apply Qfloor_unique.
  - assert (He : inject_Z (Qfloor ms mod 1000)
                 == inject_Z (Qfloor ms)
                    - 1000 * inject_Z (Qfloor ms / 1000)).
    { replace (Qfloor ms mod 1000)%Z
        with (Qfloor ms - 1000 * (Qfloor ms / 1000))%Z by lia.
      unfold Zminus. rewrite inject_Z_plus, inject_Z_opp, inject_Z_mult.
      change (inject_Z 1000) with 1000. lra. }
    rewrite He. lra.
  - assert (He : inject_Z (Qfloor ms mod 1000 + 1)
                 == inject_Z (Qfloor ms + 1)
                    - 1000 * inject_Z (Qfloor ms / 1000)).
    { replace (Qfloor ms mod 1000 + 1)%Z
        with (Qfloor ms + 1 - 1000 * (Qfloor ms / 1000))%Z by lia.
      unfold Zminus. rewrite !inject_Z_plus, inject_Z_opp, inject_Z_mult.
      change (inject_Z 1000) with 1000. lra. }
    rewrite He. lra.
Qed.

(** Padding to two and to three digits, checked on every number in
    range. *)
Lemma pad2_digits (n : Z) :
  (0 <= n < 100)%Z -> padStart0 2 (dec n) = two_digits n.
Proof.
  intro Hn.
  assert (Hall : forallb (fun k => padStart0 2 (dec (Z.of_nat k))
                                   =? two_digits (Z.of_nat k))
                         (seq 0 100) = true) by (vm_compute; reflexivity).
  rewrite forallb_forall in Hall.
  specialize (Hall (Z.to_nat n)).
  rewrite Z2Nat.id in Hall by lia.
  apply String.eqb_eq, Hall, in_seq. lia.
Qed.

Lemma pad3_digits (n : Z) :
  (0 <= n < 1000)%Z -> padStart0 3 (dec n) = three_digits n.
Proof.
  intro Hn.
  assert (Hall : forallb (fun k => padStart0 3 (dec (Z.of_nat k))
                                   =? three_digits (Z.of_nat k))
                         (seq 0 1000) = true) by (vm_compute; reflexivity).
  rewrite forallb_forall in Hall.
  specialize (Hall (Z.to_nat n)).
  rewrite Z2Nat.id in Hall by lia.
  apply String.eqb_eq, Hall, in_seq. lia.
Qed.

Lemma whole_seconds_range (ms : Q) :
  0 <= ms -> ms < 6000000 ->
  (0 <= Qfloor (ms / 1000) < 6000)%Z.
Proof.
  intros H0 H1.
  pose proof (Qfloor_le (ms / 1000)) as Hle.
  pose proof (Qlt_floor (ms / 1000)) as Hlt.
  assert (Hq0 : 0 <= ms / 1000)
    by (apply Qle_shift_div_l; [reflexivity | lra]).
  assert (Hq1 : ms / 1000 < 6000)
    by (apply Qlt_shift_div_r; [reflexivity | lra]).
  split.
  - assert ((-1 < Qfloor (ms / 1000))%Z); [|lia].
    rewrite Zlt_Qlt. rewrite inject_Z_plus in Hlt.
    change (inject_Z 1) with 1 in Hlt. change (inject_Z (-1)) with (-1). lra.
  - rewrite Zlt_Qlt. change (inject_Z 6000) with 6000. lra.
Qed.

Lemma append_length (a b : string) :
  String.length (a ++ b) = (String.length a + String.length b)%nat.
Proof.
  induction a as [|c a IH]; simpl; [reflexivity | now rewrite IH].
Qed.

End FormatFacts.

(** X7. The time label of the network viewer and of the video player.
    A time that is not positive reads 00:00: nothing is ever shown
    before the start.  A time below 100 minutes reads as exactly five
    characters, minutes and seconds on two digits each, the seconds
    below 60, which together are the whole seconds elapsed. *)
Theorem formatTime_label (ms : Q) :
  (ms <= 0 -> Format.formatTime ms = "00:00")
  /\
  (0 <= ms -> ms < 6000000 ->
   let s := Qfloor (ms / 1000) in
   Format.formatTime ms
   = (Format.two_digits (s / 60) ++ ":" ++ Format.two_digits (s mod 60))%string
   /\ String.length (Format.formatTime ms) = 5%nat
   /\ (0 <= s / 60 < 100)%Z /\ (0 <= s mod 60 < 60)%Z
   /\ (s / 60 * 60 + s mod 60 = s)%Z).
Proof.
  split.
  - intro Hneg. unfold Format.formatTime. cbv zeta.
    pose proof (FormatFacts.max0_nonpos ms Hneg) as Hz.
    rewrite (FormatFacts.Qfloor_small (Format.max0 ms / 1000)).
    + reflexivity.
    + apply Qle_shift_div_l; [reflexivity | lra].
    + apply Qlt_shift_div_r; [reflexivity | lra].
  - intros H0 H1. cbv zeta.
    pose proof (FormatFacts.whole_seconds_range ms H0 H1) as Hs.
    set (s := Qfloor (ms / 1000)) in *.
    assert (Hm : (0 <= s / 60 < 100)%Z).
    { split; [apply Z.div_pos; lia|].
      apply Z.div_lt_upper_bound; lia. }
    assert (Hr : (0 <= s mod 60 < 60)%Z) by (apply Z.mod_pos_bound; lia).
    assert (Heq : Format.formatTime ms
                  = (Format.two_digits (s / 60) ++ ":"
                       ++ Format.two_digits (s mod 60))%string).
    { unfold Format.formatTime. cbv zeta.
      rewrite (FormatFacts.max0_nonneg ms H0). fold s.
      rewrite Z.rem_mod_nonneg by lia.
      rewrite !FormatFacts.pad2_digits by lia. reflexivity. }
    split; [exact Heq|]. split; [rewrite Heq; reflexivity|].
    split; [exact Hm|]. split; [exact Hr|].
    pose proof (Z.div_mod s 60 ltac:(lia)). lia.
Qed.

(** Run of X7: one minute, one second and a half. *)
Lemma formatTime_label_witness : Format.formatTime 61500 = "01:01".
Proof.
  destruct (formatTime_label 61500) as [_ Hpos].
  destruct Hpos as (Heq & _); [discriminate | reflexivity |].
  rewrite Heq. reflexivity.
Defined.

(** X8. The time label of the console viewer is the same label
    followed by a dot and the whole milliseconds within the second on
    three digits; a time that is not positive reads 00:00.000. *)
Theorem formatTimeMs_label (ms : Q) :
  (ms <= 0 -> Format.formatTimeMs ms = "00:00.000")
  /\
  (0 <= ms -> ms < 6000000 ->
   let s := Qfloor (ms / 1000) in
   Format.formatTimeMs ms
   = (Format.two_digits (s / 60) ++ ":" ++ Format.two_digits (s mod 60)
        ++ "." ++ Format.three_digits (Qfloor ms mod 1000))%string
   /\ String.length (Format.formatTimeMs ms) = 9%nat
   /\ (s * 1000 + Qfloor ms mod 1000 = Qfloor ms)%Z).
Proof.
  split.
  - intro Hneg. unfold Format.formatTimeMs. cbv zeta.
    pose proof (FormatFacts.max0_nonpos ms Hneg) as Hz.
    assert (Hnn : 0 <= Format.max0 ms) by lra.
    rewrite (FormatFacts.floor_rem_1000 _ Hnn).
    rewrite (FormatFacts.Qfloor_small (Format.max0 ms / 1000));
      [|apply Qle_shift_div_l; [reflexivity | lra]
       |apply Qlt_shift_div_r; [reflexivity | lra]].
    rewrite (FormatFacts.Qfloor_small (Format.max0 ms)) by lra.
    reflexivity.
  - intros H0 H1. cbv zeta.
    pose proof (FormatFacts.whole_seconds_range ms H0 H1) as Hs.
    assert (Heq : Format.formatTimeMs ms
                  = (Format.two_digits (Qfloor (ms / 1000) / 60) ++ ":"
                       ++ Format.two_digits (Qfloor (ms / 1000) mod 60)
                       ++ "." ++ Format.three_digits (Qfloor ms mod 1000))
                    %string).
    { unfold Format.formatTimeMs. cbv zeta.
      rewrite (FormatFacts.max0_nonneg ms H0).
      rewrite (FormatFacts.floor_rem_1000 _ H0).
      rewrite Z.rem_mod_nonneg by lia.
      rewrite FormatFacts.pad3_digits
        by (apply Z.mod_pos_bound; lia).
      assert (Hm : (0 <= Qfloor (ms / 1000) / 60 < 100)%Z).
      { split; [apply Z.div_pos; lia|].
        apply Z.div_lt_upper_bound; lia. }
      pose proof (Z.mod_pos_bound (Qfloor (ms / 1000)) 60 ltac:(lia)) as Hr.
      rewrite !FormatFacts.pad2_digits by lia. reflexivity. }
    split; [exact Heq|]. split; [rewrite Heq; reflexivity|].
    rewrite FormatFacts.Qfloor_div_1000.
    pose proof (Z.div_mod (Qfloor ms) 1000 ltac:(lia)). lia.
Qed.

(** Run of X8. *)
Lemma formatTimeMs_label_witness :
  Format.formatTimeMs (61500 + (1 # 2)) = "01:01.500".
Proof.
  destruct (formatTimeMs_label (61500 + (1 # 2))) as [_ Hpos].
  destruct Hpos as (Heq & _); [discriminate | reflexivity |].
  rewrite Heq. reflexivity.
Defined.

(** X9. The size column.  It shows a dash exactly when the size is
    missing, zero or negative; a size below 1024 is shown in bytes as it
    is; a size from 1024 on is shown with one decimal, in KB below 1024
    times 1024 and in MB from there on, and the number of tenths shown
    is the whole number nearest to ten times the size in that unit (so
    the figure is off by at most a twentieth of the unit). *)
Theorem formatSize_cases (bytes : option Z) :
  (Format.formatSize bytes = "-" <->
   match bytes with None => True | Some b => (b <= 0)%Z end)
  /\
  (forall b, bytes = Some b -> (0 < b < 1024)%Z ->
             Format.formatSize bytes = (Format.dec b ++ " B")%string)
  /\
  (forall b, bytes = Some b -> (1024 <= b)%Z ->
     let x := if (b <? 1024 * 1024)%Z then inject_Z b / 1024
              else inject_Z b / (1024 * 1024) in
     let unit := if (b <? 1024 * 1024)%Z then " KB" else " MB" in
     exists n,
       (0 <= n)%Z /\
       Format.formatSize bytes
       = ((Format.dec (n / 10) ++ "." ++ Format.dec (n mod 10)) ++ unit)
         %string /\
       x * 10 - (1 # 2) < inject_Z n /\ inject_Z n <= x * 10 + (1 # 2)).
Proof.
  assert (Hlen : forall a u, (2 <= String.length u)%nat ->
                             (a ++ u)%string <> "-").
  { intros a u Hu Heq. apply (f_equal String.length) in Heq.
    rewrite FormatFacts.append_length in Heq. simpl in Heq. lia. }
  split; [|split].
  - destruct bytes as [b|]; [|split; reflexivity].
    unfold Format.formatSize.
    destruct (Z.eqb_spec b 0) as [-> | Hnz]; [split; [lia | reflexivity]|].
    destruct (Z.leb_spec b 0) as [Hle | Hgt]; [split; [lia | reflexivity]|].
    cbn [orb]. split; [|lia].
    destruct (b <? 1024)%Z; [|destruct (b <? 1024 * 1024)%Z];
      intro Heq; exfalso; revert Heq; apply Hlen; simpl; lia.
  - intros b -> Hb. unfold Format.formatSize.
    destruct (Z.eqb_spec b 0) as [-> | _]; [lia|].
    destruct (Z.leb_spec b 0) as [Hle | _]; [lia|].
    destruct (Z.ltb_spec b 1024) as [_ | Hge]; [reflexivity | lia].
  - intros b -> Hb. cbv zeta. unfold Format.formatSize.
    destruct (Z.eqb_spec b 0) as [-> | _]; [lia|].
    destruct (Z.leb_spec b 0) as [Hle | _]; [lia|].
    destruct (Z.ltb_spec b 1024) as [Hlt | _]; [lia|].
    cbn [orb].
    assert (Hpos : 0 < inject_Z b)
      by (change 0 with (inject_Z 0); rewrite <- Zlt_Qlt; lia).
    destruct (b <? 1024 * 1024)%Z.
    + set (x := inject_Z b / 1024).
      assert (Hx : 0 <= x)
        by (apply Qle_shift_div_l; [reflexivity | lra]).
      exists (Qfloor (x * 10 + (1 # 2))).
      pose proof (Qfloor_le (x * 10 + (1 # 2))) as H1.
      pose proof (Qlt_floor (x * 10 + (1 # 2))) as H2.
      rewrite inject_Z_plus in H2. change (inject_Z 1) with 1 in H2.
      repeat split; try lra.
      assert ((-1 < Qfloor (x * 10 + (1 # 2)))%Z); [|lia].
      rewrite Zlt_Qlt. change (inject_Z (-1)) with (-1). lra.
    + set (x := inject_Z b / (1024 * 1024)).
      assert (Hx : 0 <= x)
        by (apply Qle_shift_div_l; [reflexivity | lra]).
      exists (Qfloor (x * 10 + (1 # 2))).
      pose proof (Qfloor_le (x * 10 + (1 # 2))) as H1.
      pose proof (Qlt_floor (x * 10 + (1 # 2))) as H2.
      rewrite inject_Z_plus in H2. change (inject_Z 1) with 1 in H2.
      repeat split; try lra.
      assert ((-1 < Qfloor (x * 10 + (1 # 2)))%Z); [|lia].
      rewrite Zlt_Qlt. change (inject_Z (-1)) with (-1). lra.
Qed.

(** Run of X9: one byte short of a megabyte is shown as 1024.0 KB. *)
Lemma formatSize_cases_witness :
  Format.formatSize (Some 1048575%Z) = "1024.0 KB" /\
  Format.formatSize (Some 1023%Z) = "1023 B" /\
  Format.formatSize (Some 0%Z) = "-".
Proof.
  destruct (formatSize_cases (Some 1023%Z)) as (_ & Hb & _).
  destruct (formatSize_cases (Some 0%Z)) as (Hdash & _).
  split; [reflexivity|]. split.
  - rewrite (Hb 1023%Z eq_refl); [reflexivity | lia].
  - apply Hdash. simpl. lia.
Defined.

(** ** The URL column *)

(** X10. Whatever the URL parser answers, the URL column holds at most
    63 characters: the path and query, or the raw URL when it does not
    parse, shown whole when it has at most 60 characters and otherwise
    cut to its first 60 characters followed by three dots. *)
Theorem truncateUrl_bounded `{URLParts} (url : string) :
  let shown := match URL_path_and_search url with
               | Some p => p
               | None => url
               end in
  (String.length (UrlColumn.truncateUrl url) <= 63)%nat
  /\
  ((String.length shown <= 60)%nat -> UrlColumn.truncateUrl url = shown)
  /\
  ((60 < String.length shown)%nat ->
   UrlColumn.truncateUrl url = (JS.slice0 60 shown ++ "...")%string).
Proof.
  cbv zeta. unfold UrlColumn.truncateUrl.
  assert (Hcut : forall p, (String.length (JS.slice0 60 p ++ "...") <= 63)%nat).
  { intro p. rewrite FormatFacts.append_length.
    pose proof (MarkerFacts.slice0_length 60 p).
    change (String.length "...") with 3%nat. lia. }
  destruct (URL_path_and_search url) as [p|].
  - destruct (Nat.ltb_spec 60 (String.length p)) as [Hlong | Hshort].
    + split; [apply Hcut|]. split; [lia | reflexivity].
    + split; [lia|]. split; [reflexivity | lia].
  - destruct (Nat.ltb_spec 60 (String.length url)) as [Hlong | Hshort].
    + assert (Hne : (url =? EmptyString)%string = false).
      { apply String.eqb_neq. intros ->. simpl in Hlong. lia. }
      rewrite Hne. cbn [negb andb].
      split; [apply Hcut|]. split; [lia | reflexivity].
    + rewrite andb_false_r.
      split; [lia|]. split; [reflexivity | lia].
Qed.

(** Run of X10 with the small parser: a long path is cut to 60
    characters and three dots. *)
Lemma truncateUrl_bounded_witness :
  UrlColumn.truncateUrl (H := SimpleParts.api)
    ("http://h/" ++ Examples.letters 100)%string
  = ("/" ++ Examples.letters 59 ++ "...")%string.
Proof.
  pose proof (truncateUrl_bounded (H := SimpleParts.api)
                ("http://h/" ++ Examples.letters 100)%string) as Hb.
  cbv zeta in Hb. destruct Hb as (_ & _ & Hlong).
  rewrite Hlong; [reflexivity|].
  vm_compute. lia.
Defined.

(** ** Headers and the cURL command *)

Module CurlFacts.
Import JS Curl.
Local Open Scope string_scope.

Lemma append_nil_r (s : string) : s ++ EmptyString = s.
Proof.
  induction s as [|c s IH]; simpl; [reflexivity | now rewrite IH].
Qed.

(** Inside quotes, an escaped string reads back as itself. *)
Lemma sh_word_escaped (s rest : string) :
  sh_word true (shq s ++ rest)
  = option_map (append s) (sh_word true rest).
Proof.
  unfold shq. induction s as [|c s IH].
  - simpl. now destruct (sh_word true rest).
  - cbn [replace_all].
    destruct (Ascii.eqb c "'"%char) eqn:Hc.
    + apply Ascii.eqb_eq in Hc. subst c.
      change (sh_word true (replace_all "'"%char "'\''" s ++ rest)
              = option_map (append s) (sh_word true rest)) in IH.
      change (option_map (String "'"%char)
                (sh_word true (replace_all "'"%char "'\''" s ++ rest))
              = option_map (append (String "'"%char s))
                           (sh_word true rest)).
      rewrite IH. now destruct (sh_word true rest).
    + cbn [append sh_word]. rewrite Hc, IH.
      now destruct (sh_word true rest).
Qed.

(** Inside quotes, a string without quote reads as itself. *)
Lemma sh_word_plain (s rest : string) :
  shq s = s ->
  sh_word true (s ++ rest) = option_map (append s) (sh_word true rest).
Proof.
  intro Hs. rewrite <- Hs at 1. apply sh_word_escaped.
Qed.

Lemma sh_word_roundtrip (s : string) :
  sh_word false ("'" ++ shq s ++ "'") = Some s.
Proof.
  cbn [append sh_word Ascii.eqb Bool.eqb]. simpl (Ascii.eqb _ _).
  rewrite sh_word_escaped. simpl. now rewrite append_nil_r.
Qed.

Lemma push_loop {A B : Type} (f : B -> A) (l : list B) : forall acc,
  fold_left (fun parts h => App.push parts (f h)) l acc
  = (acc ++ map f l)%list.
Proof.
  induction l as [|x l IH]; intro acc; simpl.
  - now rewrite app_nil_r.
  - rewrite IH. unfold App.push. now rewrite <- app_assoc.
Qed.

(** The parts of the command, in order. *)
Lemma curl_parts_eq (entry : DetailEntry) :
  let request := request_of entry in
  let url := or_else (or_opt (rd_url request) (d_url entry)) EmptyString in
  let method := or_else (or_opt (rd_method request) (d_method entry)) "GET" in
  let headers := match rd_headers request with
                 | Some h => headerList h
                 | None => match d_requestHeaders entry with
                           | Some h => headerList h
                           | None => []
                           end
                 end in
  curl_parts entry
  = ([("curl '" ++ shq url ++ "'")%string]
     ++ (if (method =? "GET")%string then []
         else [("-X " ++ method)%string])
     ++ map (fun h => ("-H '" ++ h_name h ++ ": " ++ shq (h_value h) ++ "'")
                      %string)
            headers
     ++ match curl_postData entry with
        | Some d => if truthy_str (Some d)
                    then [("--data-raw '" ++ shq d ++ "'")%string] else []
        | None => []
        end)%list.
Proof.
  cbv zeta. unfold curl_parts. cbv zeta.
  set (first_part := ("curl '" ++ _ ++ "'")%string).
  set (hpart := fun h : HeaderItem => _).
  assert (Hh : forall acc,
             match match rd_headers (request_of entry) with
                   | Some h => Some h
                   | None => d_requestHeaders entry
                   end with
             | Some headers =>
                 fold_left (fun parts h => App.push parts (hpart h))
                           (headerList headers) acc
             | None => acc
             end
             = (acc ++ map hpart
                  match rd_headers (request_of entry) with
                  | Some h => headerList h
                  | None => match d_requestHeaders entry with
                            | Some h => headerList h
                            | None => []
                            end
                  end)%list).
  { intro acc.
    destruct (rd_headers (request_of entry)) as [h|];
      [apply push_loop|].
    destruct (d_requestHeaders entry) as [h|]; [apply push_loop|].
    now rewrite app_nil_r. }
  rewrite Hh. clear Hh.
  destruct (_ =? "GET"); cbn [negb]; unfold App.push;
    destruct (curl_postData entry) as [d|];
    try destruct (truthy_str (Some d));
    repeat rewrite <- app_assoc; repeat rewrite app_nil_r; reflexivity.
Qed.

End CurlFacts.

(** X11. Quoting in the cURL command.  The command's first part is the
    word curl and a quoted word that a POSIX shell reads back as
    exactly the request URL, whatever characters the URL holds; every
    header whose name holds no single quote gives a [-H] part whose
    quoted word reads back as the header line; and a body gives a
    [--data-raw] part whose quoted word reads back as the body. *)
Theorem curl_words_read_back (entry : Curl.DetailEntry) :
  let request := Curl.request_of entry in
  let url := JS.or_else (JS.or_opt (Curl.rd_url request) (Curl.d_url entry))
                        EmptyString in
  let headers := match Curl.rd_headers request with
                 | Some h => Curl.headerList h
                 | None => match Curl.d_requestHeaders entry with
                           | Some h => Curl.headerList h
                           | None => []
                           end
                 end in
  (exists w, hd_error (Curl.curl_parts entry) = Some ("curl " ++ w)%string /\
             Curl.sh_word false w = Some url)
  /\
  (forall h, In h headers -> Curl.shq (Curl.h_name h) = Curl.h_name h ->
     exists w, In ("-H " ++ w)%string (Curl.curl_parts entry) /\
               Curl.sh_word false w
               = Some (Curl.header_line (Curl.h_name h) (Curl.h_value h)))
  /\
  (forall d, Curl.curl_postData entry = Some d -> d <> EmptyString ->
     exists w, In ("--data-raw " ++ w)%string (Curl.curl_parts entry) /\
               Curl.sh_word false w = Some d).
Proof.
  cbv zeta. rewrite CurlFacts.curl_parts_eq. cbv zeta.
  split; [|split].
  - eexists. split; [reflexivity|]. apply CurlFacts.sh_word_roundtrip.
  - intros h Hh Hname.
    exists ("'" ++ Curl.h_name h ++ ": " ++ Curl.shq (Curl.h_value h) ++ "'")
           %string.
    split.
    + rewrite !in_app_iff. right. right. left.
      apply in_map_iff. exists h. split; [reflexivity | exact Hh].
    + cbn [append Curl.sh_word]. simpl (Ascii.eqb _ _).
      rewrite (CurlFacts.sh_word_plain _ _ Hname).
      cbn [append Curl.sh_word]. simpl (Ascii.eqb _ _). cbn [option_map].
      rewrite CurlFacts.sh_word_escaped. simpl.
      unfold Curl.header_line. now rewrite CurlFacts.append_nil_r.
  - intros d -> Hd.
    exists ("'" ++ Curl.shq d ++ "'")%string. split.
    + rewrite !in_app_iff. right. right. right.
      assert (Ht : JS.truthy_str (Some d) = true).
      { simpl. apply negb_true_iff. now apply String.eqb_neq. }
      rewrite Ht. now left.
    + apply CurlFacts.sh_word_roundtrip.
Qed.

(** Run of X11: a URL and a header value that hold single quotes. *)
Lemma curl_words_read_back_witness :
  let entry :=
    {| Curl.d_request := None; Curl.d_method := Some "POST";
       Curl.d_url := Some "http://h/it's";
       Curl.d_requestHeaders :=
         Some (Curl.HeaderRecord [("X-Note", "don't")]);
       Curl.d_postData := Some "a'b" |} in
  Curl.generateCurl entry
  = ("curl 'http://h/it'\''s' \" ++ Curl.nl ++ "  -X POST \" ++ Curl.nl
       ++ "  -H 'X-Note: don'\''t' \" ++ Curl.nl
       ++ "  --data-raw 'a'\''b'")%string
  /\
  exists w, In ("-H " ++ w)%string (Curl.curl_parts entry) /\
            Curl.sh_word false w = Some "X-Note: don't".
Proof.
  cbv zeta. split; [reflexivity|].
  pose proof (curl_words_read_back
                {| Curl.d_request := None; Curl.d_method := Some "POST";
                   Curl.d_url := Some "http://h/it's";
                   Curl.d_requestHeaders :=
                     Some (Curl.HeaderRecord [("X-Note", "don't")]);
                   Curl.d_postData := Some "a'b" |}) as Hc.
  cbv zeta in Hc. destruct Hc as (_ & Hheader & _).
  apply (Hheader {| Curl.h_name := "X-Note"; Curl.h_value := "don't" |}).
  - left. reflexivity.
  - reflexivity.
Defined.


(** ** Escaping and the value renderer *)

Module EscapeFacts.
Import JS Renderer Entities.
Local Open Scope string_scope.







End EscapeFacts.

Module SpanFacts.
Import JS Renderer Entities.
Local Open Scope string_scope.




End SpanFacts.




(** ** The initiator stack *)

Module StackFacts.
Import JS Stack.

Lemma lines_of_chain : forall stack,
  List.length (view_lines (InitiatorStack stack))
  = (List.length (chain_frames stack) + chain_links stack)%nat
  /\ map row_fnName
         (match InitiatorStack stack with
          | ViewNull => []
          | ViewBlock rows _ => rows
          end)
     = map (fun f => row_fnName (frame_row f))
           (match stack with
            | mkStackInfo (Some l) _ _ => l
            | _ => []
            end).
Proof.
  fix IH 1. intros [callFrames parent description].
  destruct parent as [p|].
  - destruct (IH p) as [Hp _]. split.
    + cbn [InitiatorStack chain_frames chain_links].
      destruct callFrames as [[|f l]|];
        cbn [view_lines]; rewrite ?length_app, ?length_map;
        cbn [List.length]; rewrite Hp; lia.
    + cbn [InitiatorStack].
      destruct callFrames as [[|f l]|]; cbn; now rewrite ?map_map.
  - split.
    + cbn [InitiatorStack chain_frames chain_links].
      destruct callFrames as [[|f l]|];
        cbn [view_lines List.length]; rewrite ?length_app, ?length_map;
        cbn [List.length]; rewrite ?app_nil_r; lia.
    + cbn [InitiatorStack].
      destruct callFrames as [[|f l]|]; cbn; now rewrite ?map_map.
Qed.

End StackFacts.

(** X15. The initiator stack is rendered frame by frame and never
    filtered: the panel shows nothing exactly when the stack has no
    frame and no parent; otherwise its lines are the stack's own frames
    in order, then, when there is a parent, one separator naming the
    parent (async when it has no description) followed by the parent's
    lines; over a whole chain that is one line per frame and one per
    parent link, frames of vendored code included.  A frame with a
    source-mapped location shows it counted from one, in preference to
    its raw location. *)
Theorem initiator_stack_lines
  (callFrames : option (list Stack.StackFrameInfo))
  (parent : option Stack.StackInfo) (description : option string) :
  let stack := Stack.mkStackInfo callFrames parent description in
  let frames := match callFrames with Some l => l | None => [] end in
  (Stack.InitiatorStack stack = Stack.ViewNull <->
   frames = [] /\ parent = None)
  /\
  Stack.view_lines (Stack.InitiatorStack stack)
  = (map (fun f => Stack.row_text (Stack.frame_row f)) frames
     ++ match parent with
        | Some (Stack.mkStackInfo pf pp pd as p) =>
            Stack.separator_text (JS.or_else pd "async")
              :: Stack.view_lines (Stack.InitiatorStack p)
        | None => []
        end)%list
  /\
  List.length (Stack.view_lines (Stack.InitiatorStack stack))
  = (List.length (Stack.chain_frames stack) + Stack.chain_links stack)%nat
  /\
  (forall f src, In f frames -> Stack.f_originalSource f = Some src ->
                 src <> EmptyString ->
     Stack.row_location (Stack.frame_row f)
     = (src ++ ":"
          ++ Format.dec (Stack.or_zero (Stack.f_originalLine f) + 1) ++ ":"
          ++ Format.dec (Stack.or_zero (Stack.f_originalColumn f) + 1))
       %string).
Proof.
  cbv zeta. split; [|split; [|split]].
  - cbn [Stack.InitiatorStack].
    destruct callFrames as [[|f l]|]; destruct parent as [p|];
      split; try discriminate; try (intros [H1 H2]; discriminate);
      try (intros _; split; reflexivity); reflexivity.
  - cbn [Stack.InitiatorStack].
    destruct callFrames as [[|f l]|]; destruct parent as [[pf pp pd]|];
      cbn [Stack.view_lines map app]; rewrite ?map_map; reflexivity.
  - apply StackFacts.lines_of_chain.
  - intros f src _ Hsrc Hne. unfold Stack.frame_row. cbn [Stack.row_location].
    rewrite Hsrc. cbn [JS.truthy_str Renderer.hole].
    apply String.eqb_neq in Hne. now rewrite Hne.
Qed.

(** Run of X15: two frames, the second from vendored code and
    source-mapped, over a parent chain of one frame without
    description. *)
Lemma initiator_stack_lines_witness :
  let frame name :=
    {| Stack.f_functionName := Some name; Stack.f_url := None;
       Stack.f_lineNumber := None; Stack.f_columnNumber := None;
       Stack.f_originalName := None; Stack.f_originalSource := None;
       Stack.f_originalLine := None; Stack.f_originalColumn := None |} in
  let mapped :=
    {| Stack.f_functionName := Some "t"; Stack.f_url := Some "http://h/b.js";
       Stack.f_lineNumber := Some 0%Z; Stack.f_columnNumber := Some 900%Z;
       Stack.f_originalName := Some "send";
       Stack.f_originalSource := Some "node_modules/x/send.ts";
       Stack.f_originalLine := Some 41%Z;
       Stack.f_originalColumn := Some 6%Z |} in
  Stack.view_lines
    (Stack.InitiatorStack
       (Stack.mkStackInfo (Some [frame "load"; mapped])
          (Some (Stack.mkStackInfo (Some [frame "onTimer"]) None None))
          None))
  = ["at load"; "at send (node_modules/x/send.ts:42:7)"; "--- async ---";
     "at onTimer"].
Proof.
  cbv zeta.
  destruct (initiator_stack_lines
              (Some [ {| Stack.f_functionName := Some "load";
                         Stack.f_url := None;
                         Stack.f_lineNumber := None;
                         Stack.f_columnNumber := None;
                         Stack.f_originalName := None;
                         Stack.f_originalSource := None;
                         Stack.f_originalLine := None;
                         Stack.f_originalColumn := None |};
                      {| Stack.f_functionName := Some "t";
                         Stack.f_url := Some "http://h/b.js";
                         Stack.f_lineNumber := Some 0%Z;
                         Stack.f_columnNumber := Some 900%Z;
                         Stack.f_originalName := Some "send";
                         Stack.f_originalSource := Some "node_modules/x/send.ts";
                         Stack.f_originalLine := Some 41%Z;
                         Stack.f_originalColumn := Some 6%Z |} ])
              (Some (Stack.mkStackInfo
                       (Some [ {| Stack.f_functionName := Some "onTimer";
                                  Stack.f_url := None;
                                  Stack.f_lineNumber := None;
                                  Stack.f_columnNumber := None;
                                  Stack.f_originalName := None;
                                  Stack.f_originalSource := None;
                                  Stack.f_originalLine := None;
                                  Stack.f_originalColumn := None |} ])
                       None None))
              None) as (_ & Hlines & _).
  rewrite Hlines. reflexivity.
Defined.

(** ** The WebSocket frames table *)

(** X16. The frames table shows the first frames of a connection, at
    most a hundred, one row each in order; the closing row appears
    exactly when there are more than a hundred and counts the frames
    left out, so rows and count add up to the number of frames; a
    payload longer than 200 characters is cut to 200 and three dots;
    and only a frame whose direction is the word sent gets the upward
    arrow. *)
Theorem ws_frames_table (frames : list WsDetail.WsFrame) :
  List.length (WsDetail.ws_rows frames)
  = Nat.min 100 (List.length frames)
  /\
  WsDetail.ws_rows frames
  = firstn 100 (map WsDetail.ws_row frames)
  /\
  (List.length (WsDetail.ws_rows frames)
   + match WsDetail.ws_more frames with Some n => n | None => 0 end
   = List.length frames)%nat
  /\
  (WsDetail.ws_more frames = None <-> (List.length frames <= 100)%nat)
  /\
  (forall r, In r (WsDetail.ws_rows frames) ->
             (String.length (WsDetail.wr_text r) <= 203)%nat)
  /\
  (forall f, WsDetail.wr_dir (WsDetail.ws_row f) = "↑" <->
             WsDetail.direction f = Some "sent").
Proof.
  unfold WsDetail.ws_rows, WsDetail.ws_more, WsDetail.maxFrames.
  assert (Hlen : List.length (map WsDetail.ws_row (firstn 100 frames))
                 = Nat.min 100 (List.length frames))
    by now rewrite length_map, length_firstn.
  split; [exact Hlen|]. split; [symmetry; apply firstn_map|].
  split; [|split; [|split]].
  - rewrite Hlen.
    destruct (Nat.ltb_spec 100 (List.length frames)); lia.
  - destruct (Nat.ltb_spec 100 (List.length frames));
      split; intro; try discriminate; try reflexivity; lia.
  - intros r Hr. apply in_map_iff in Hr as (f & <- & _).
    unfold WsDetail.ws_row. cbn [WsDetail.wr_text].
    destruct (Nat.ltb_spec 200
                (String.length (JS.or_else (WsDetail.payloadData f)
                                           EmptyString))) as [Hlong | Hshort].
    + rewrite FormatFacts.append_length.
      pose proof (MarkerFacts.slice0_length 200
                    (JS.or_else (WsDetail.payloadData f) EmptyString)).
      change (String.length "...") with 3%nat. lia.
    + lia.
  - intro f. unfold WsDetail.ws_row. cbn [WsDetail.wr_dir].
    destruct (WsDetail.direction f) as [d|].
    + destruct (String.eqb_spec d "sent") as [-> | Hne].
      * split; reflexivity.
      * split; [discriminate | intros [= ->]; contradiction].
    + split; discriminate.
Qed.

(** ** The scrub bar *)

Module ScrubFacts.
Import JS JSFacts ScrubBar.

Lemma min2_spec (a b : Q) :
  (a <= b /\ min2 a b = a) \/ (b < a /\ min2 a b = b).
Proof.
  unfold min2. destruct (Qle_bool a b) eqn:Hle.
  - left. split; [now apply Qle_bool_iff | reflexivity].
  - right. split; [now apply Qle_bool_false_iff | reflexivity].
Qed.

Lemma share_sign (x d : Q) : 0 < d -> (0 <= x / d * 100 <-> 0 <= x).
Proof.
  intro Hd. split; intro Hx.
  - assert (H1 : 0 <= x / d * 100 * (d / 100)).
    { apply Qmult_le_0_compat; [exact Hx|].
      apply Qle_shift_div_l; [reflexivity | lra]. }
    assert (Heq : x / d * 100 * (d / 100) == x) by (field; lra).
    lra.
  - apply Qmult_le_0_compat; [|discriminate].
    apply Qle_shift_div_l; [exact Hd | lra].
Qed.

End ScrubFacts.

(** X17. Markers on the scrub bar.  Nothing is drawn while the duration
    is unknown or not positive.  With a positive duration a marker is
    drawn exactly when its time is not negative, at a position between
    0 and 100 percent: its share of the duration, and 100 percent for a
    marker later than the duration, which is drawn at the end and never
    dropped.  So an event from before the session start never shows on
    the bar. *)
Theorem marker_position (markerDurationMs : Q) (m : TimelineMarker) :
  (markerDurationMs <= 0 ->
   ScrubBar.marker_left markerDurationMs m = None)
  /\
  (0 < markerDurationMs ->
   (ScrubBar.marker_left markerDurationMs m = None <-> timeMs m < 0)
   /\
   (forall p, ScrubBar.marker_left markerDurationMs m = Some p ->
              0 <= p /\ p <= 100 /\
              (timeMs m <= markerDurationMs ->
               p == timeMs m / markerDurationMs * 100) /\
              (markerDurationMs <= timeMs m -> p == 100))).
Proof.
  unfold ScrubBar.marker_left. split.
  - intro Hd.
    destruct (JS.Qlt_bool 0 markerDurationMs) eqn:Hb; [|reflexivity].
    apply JSFacts.Qlt_bool_iff in Hb. lra.
  - intro Hd.
    assert (Hb : JS.Qlt_bool 0 markerDurationMs = true)
      by now apply JSFacts.Qlt_bool_iff.
    rewrite Hb. cbv zeta.
    set (share := timeMs m / markerDurationMs * 100).
    pose proof (ScrubFacts.share_sign (timeMs m) markerDurationMs Hd) as Hsign.
    fold share in Hsign.
    assert (Hone : share <= 100 <-> timeMs m <= markerDurationMs).
    { unfold share. split; intro Hx.
      - assert (H1 : timeMs m / markerDurationMs <= 1).
        { apply Qmult_le_r with (z := 100); [reflexivity | lra]. }
        apply Qmult_le_r with (z := / markerDurationMs);
          [now apply Qinv_lt_0_compat|].
        setoid_replace (markerDurationMs * / markerDurationMs) with 1
          by (field; lra).
        exact H1.
      - assert (H1 : timeMs m / markerDurationMs <= 1)
          by (apply Qle_shift_div_r; [exact Hd | lra]).
        lra. }
    destruct (ScrubFacts.min2_spec share 100) as [[Hle ->] | [Hgt ->]].
    + destruct (JS.Qlt_bool share 0) eqn:Hneg.
      * apply JSFacts.Qlt_bool_iff in Hneg. cbn [orb]. split.
        -- split; [intros _ | reflexivity].
           apply Qnot_le_lt. intro Hnn. apply Hsign in Hnn. lra.
        -- intros p [=].
      * apply JSFacts.Qlt_bool_false_iff in Hneg. cbn [orb].
        assert (Hok : JS.Qlt_bool 100 share = false)
          by now apply JSFacts.Qlt_bool_false_iff.
        rewrite Hok. split.
        -- split; [discriminate|]. intro Hlt.
           apply Hsign in Hneg. lra.
        -- intros p [= <-].
           split; [exact Hneg|]. split; [exact Hle|]. split.
           ++ intros _. reflexivity.
           ++ intro Hlate. apply Hone in Hle. unfold share.
              assert (Heq : timeMs m == markerDurationMs) by lra.
              rewrite Heq. field. lra.
    + assert (Hnn : 0 <= timeMs m).
      { apply Hsign. lra. }
      assert (H0 : JS.Qlt_bool 100 0 = false) by reflexivity.
      assert (H1 : JS.Qlt_bool 100 100 = false) by reflexivity.
      rewrite H0, H1. cbn [orb]. split.
      * split; [discriminate | lra].
      * intros p [= <-].
        split; [discriminate|]. split; [apply Qle_refl|]. split.
        -- intro Hearly. apply Hone in Hearly. lra.
        -- intros _. reflexivity.
Qed.

(** Run of X17: a marker half way, one past the end, one from before
    the start. *)
Lemma marker_position_witness :
  ScrubBar.marker_left 2000
    {| timeMs := 1000; color := "#58a6ff"; label := "GET /" |} <> None /\
  ScrubBar.marker_left 2000
    {| timeMs := -5; color := "#58a6ff"; label := "GET /" |} = None.
Proof.
  split.
  - destruct (marker_position 2000
                {| timeMs := 1000; color := "#58a6ff"; label := "GET /" |})
      as [_ Hpos].
    destruct (Hpos ltac:(reflexivity)) as [Hnone _].
    intro Heq. apply Hnone in Heq. revert Heq. discriminate.
  - destruct (marker_position 2000
                {| timeMs := -5; color := "#58a6ff"; label := "GET /" |})
      as [_ Hpos].
    destruct (Hpos ltac:(reflexivity)) as [Hnone _].
    apply Hnone. reflexivity.
Defined.

(** ** The recording id in the address *)

Module AddressFacts.
Import JS Address.
Local Open Scope string_scope.

Lemma split_nonempty (sep : ascii) (s : string) : split sep s <> [].
Proof.
  destruct s as [|c r]; simpl; [discriminate|].
  destruct (Ascii.eqb c sep); [discriminate|].
  destruct (split sep r); discriminate.
Qed.

(** Splitting around one separator splits both sides. *)
Lemma split_app (sep : ascii) (a b : string) :
  split sep (a ++ String sep b) = (split sep a ++ split sep b)%list.
Proof.
  induction a as [|c a IH]; simpl.
  - now rewrite Ascii.eqb_refl.
  - destruct (Ascii.eqb c sep); [now rewrite IH|].
    rewrite IH.
    destruct (split sep a) as [|h t] eqn:Ha;
      [now apply split_nonempty in Ha | reflexivity].
Qed.

Lemma split_plain (sep : ascii) (s : string) :
  has_char sep s = false -> split sep s = [s].
Proof.
  induction s as [|c r IH]; simpl; [reflexivity|].
  intro Hc. apply orb_false_iff in Hc as [Hc Hr].
  now rewrite Hc, (IH Hr).
Qed.

Lemma last_two (l : list string) (x y : string) :
  let parts := (l ++ [x; y])%list in
  at_index parts (Z.of_nat (List.length parts) - 1) = Some y /\
  at_index parts (Z.of_nat (List.length parts) - 2) = Some x.
Proof.
  cbv zeta. unfold at_index. rewrite length_app. cbn [List.length].
  split.
  - destruct (Z.ltb_spec (Z.of_nat (List.length l + 2) - 1) 0); [lia|].
    replace (Z.to_nat (Z.of_nat (List.length l + 2) - 1))
      with (List.length l + 1)%nat by lia.
    rewrite nth_error_app2 by lia.
    now replace (List.length l + 1 - List.length l)%nat with 1%nat by lia.
  - destruct (Z.ltb_spec (Z.of_nat (List.length l + 2) - 2) 0); [lia|].
    replace (Z.to_nat (Z.of_nat (List.length l + 2) - 2))
      with (List.length l + 0)%nat by lia.
    rewrite nth_error_app2 by lia.
    now replace (List.length l + 0 - List.length l)%nat with 0%nat by lia.
Qed.

End AddressFacts.

(** X18. The page finds its recording id as the last segment of the
    address, and one trailing slash is forgiven: for an id that is not
    empty and holds no slash, both the address ending in the id and the
    address ending in the id and a slash give that id.  An address that
    ends in two slashes gives none, and so does the bare root. *)
Theorem recordingId_of_address (before id : string) :
  id <> EmptyString ->
  Address.has_char "/"%char id = false ->
  Address.recordingId (before ++ "/" ++ id) = Some id /\
  Address.recordingId (before ++ "/" ++ id ++ "/") = Some id /\
  Address.recordingId (before ++ "/" ++ id ++ "//") = None /\
  Address.recordingId "/" = None.
Proof.
  intros Hne Hplain.
  assert (Htruthy : JS.truthy_str (Some id) = true).
  { simpl. apply negb_true_iff. now apply String.eqb_neq. }
  assert (Hsplit : exists l x,
             Address.split "/"%char before = (l ++ [x])%list).
  { destruct (exists_last (AddressFacts.split_nonempty "/"%char before))
      as (l & x & Hl). now exists l, x. }
  destruct Hsplit as (l & x & Hl).
  assert (H1 : Address.split "/"%char (before ++ "/" ++ id)
               = (l ++ [x; id])%list).
  { cbn [append]. rewrite AddressFacts.split_app, Hl.
    rewrite (AddressFacts.split_plain _ _ Hplain).
    now rewrite <- app_assoc. }
  split; [|split; [|split]].
  - unfold Address.recordingId. cbv zeta. rewrite H1.
    destruct (AddressFacts.last_two l x id) as [Hy _]. cbv zeta in Hy.
    rewrite Hy. unfold JS.or_opt. now rewrite Htruthy, Htruthy.
  - assert (H2 : Address.split "/"%char (before ++ "/" ++ id ++ "/")
                 = ((l ++ [x]) ++ [id; EmptyString])%list).
    { replace (before ++ "/" ++ id ++ "/")%string
        with ((before ++ "/" ++ id) ++ String "/"%char EmptyString)%string
        by (now rewrite !RendererFacts.append_assoc).
      rewrite AddressFacts.split_app, H1. simpl.
      now rewrite <- !app_assoc. }
    unfold Address.recordingId. cbv zeta. rewrite H2.
    destruct (AddressFacts.last_two (l ++ [x]) id EmptyString) as [Hy Hx].
    cbv zeta in Hy, Hx. rewrite Hy, Hx.
    unfold JS.or_opt.
    change (JS.truthy_str (Some EmptyString)) with false. cbv iota.
    now rewrite Htruthy.
  - assert (H3 : Address.split "/"%char (before ++ "/" ++ id ++ "//")
                 = ((l ++ [x; id]) ++ [EmptyString; EmptyString])%list).
    { replace (before ++ "/" ++ id ++ "//")%string
        with (((before ++ "/" ++ id) ++ String "/"%char EmptyString)
                ++ String "/"%char EmptyString)%string
        by (now rewrite !RendererFacts.append_assoc).
      rewrite !AddressFacts.split_app, H1. simpl.
      now rewrite <- !app_assoc. }
    unfold Address.recordingId. cbv zeta. rewrite H3.
    destruct (AddressFacts.last_two (l ++ [x; id]) EmptyString EmptyString)
      as [Hy Hx].
    cbv zeta in Hy, Hx. rewrite Hy, Hx. reflexivity.
  - reflexivity.
Qed.

(** Run of X18 on the viewer's own route. *)
Lemma recordingId_of_address_witness :
  Address.recordingId "/view/1a2b3c4d" = Some "1a2b3c4d" /\
  Address.recordingId "/view/1a2b3c4d/" = Some "1a2b3c4d".
Proof.
  destruct (recordingId_of_address "/view" "1a2b3c4d") as (H1 & H2 & _).
  - discriminate.
  - reflexivity.
  - split; [exact H1 | exact H2].
Defined.

(** ** The disk store *)

Module StoreFacts.
Import JS Store.
Local Open Scope string_scope.

Lemma hex_digit_is_hex (n : nat) : (n < 16)%nat -> is_hex (hex_digit n) = true.
Proof.
  intro Hn. do 16 (destruct n as [|n]; [reflexivity|]). lia.
Qed.

Lemma toHex_all_hex (bytes : list ascii) : all_hex (toHex bytes) = true.
Proof.
  induction bytes as [|b rest IH]; [reflexivity|].
  cbn [toHex all_hex].
  pose proof (nat_ascii_bounded b) as Hb.
  rewrite !hex_digit_is_hex, IH; [reflexivity | |].
  - apply Nat.mod_upper_bound. lia.
  - apply Nat.Div0.div_lt_upper_bound. lia.
Qed.

Lemma toHex_length (bytes : list ascii) :
  String.length (toHex bytes) = (2 * List.length bytes)%nat.
Proof.
  induction bytes as [|b rest IH]; [reflexivity|].
  cbn [toHex String.length List.length]. rewrite IH. lia.
Qed.

Lemma toHex_valid (bytes : list ascii) :
  bytes <> [] -> valid_id (toHex bytes) = true.
Proof.
  intro Hne. unfold valid_id. rewrite toHex_all_hex, andb_true_r.
  destruct bytes as [|b rest]; [contradiction | reflexivity].
Qed.

Lemma is_hex_chars (c : ascii) :
  is_hex c = true <-> In c (list_ascii_of_string "0123456789abcdef").
Proof.
  destruct c as [[] [] [] [] [] [] [] []]; vm_compute;
    split; intro Hc; try discriminate; try reflexivity;
    intuition discriminate.
Qed.

Lemma all_hex_chars (s : string) :
  all_hex s = true <->
  forall c, In c (list_ascii_of_string s) ->
            In c (list_ascii_of_string "0123456789abcdef").
Proof.
  induction s as [|x r IH]; cbn [all_hex list_ascii_of_string].
  - split; [intros _ c [] | reflexivity].
  - rewrite andb_true_iff, IH, is_hex_chars. split.
    + intros [Hx Hr] c [<- | Hc]; auto.
    + intro Hall. split; [apply Hall; now left|].
      intros c Hc. apply Hall. now right.
Qed.

Section OnDisk.
Variable DATA_DIR : string.
Variable existsSync : string -> bool.

(** What the loop of [generateId] returns: the first free id among its
    tries, or the long id when every try is taken. *)
Lemma generateId_from_spec (random4 : nat -> ascii * ascii * ascii * ascii)
      (random8 : list ascii) (tries : nat) : forall i,
  let id := generateId_from DATA_DIR existsSync tries i random4 random8 in
  let try_ j := let '(b0, b1, b2, b3) := random4 j in
                toHex [b0; b1; b2; b3] in
  (exists j, (i <= j < i + tries)%nat /\ id = try_ j /\
             existsSync (join2 DATA_DIR id) = false /\
             forall k, (i <= k < j)%nat ->
                       existsSync (join2 DATA_DIR (try_ k)) = true)
  \/
  (id = toHex random8 /\
   forall k, (i <= k < i + tries)%nat ->
             existsSync (join2 DATA_DIR (try_ k)) = true).
Proof.
  induction tries as [|tries IH]; intro i; cbv zeta.
  - right. split; [reflexivity|]. intros k Hk. lia.
  - cbn [generateId_from].
    destruct (random4 i) as [[[b0 b1] b2] b3] eqn:Hr.
    destruct (existsSync (join2 DATA_DIR (toHex [b0; b1; b2; b3]))) eqn:He;
      cbn [negb].
    + specialize (IH (S i)). cbv zeta in IH.
      assert (Hi : forall k, (i <= k)%nat -> (k < S i)%nat ->
                   existsSync
                     (join2 DATA_DIR
                        (let '(c0, c1, c2, c3) := random4 k in
                         toHex [c0; c1; c2; c3])) = true).
      { intros k H1 H2. assert (k = i) as -> by lia. now rewrite Hr. }
      destruct IH as [(j & Hj & Hid & Hfree & Hbefore) | [Hid Hall]].
      * left. exists j. split; [lia|]. split; [exact Hid|].
        split; [exact Hfree|].
        intros k Hk. destruct (Nat.lt_ge_cases k (S i));
          [apply Hi; lia | apply Hbefore; lia].
      * right. split; [exact Hid|].
        intros k Hk. destruct (Nat.lt_ge_cases k (S i));
          [apply Hi; lia | apply Hall; lia].
    + left. exists i. split; [lia|]. rewrite Hr.
      split; [reflexivity|]. split; [exact He|]. intros k Hk. lia.
Qed.

Lemma generateId_valid (random4 : nat -> ascii * ascii * ascii * ascii)
      (random8 : list ascii) :
  random8 <> [] ->
  valid_id (generateId DATA_DIR existsSync random4 random8) = true.
Proof.
  intro Hne. unfold generateId.
  pose proof (generateId_from_spec random4 random8 10 0) as Hspec.
  cbv zeta in Hspec.
  destruct Hspec as [(j & _ & Hid & _) | [Hid _]]; rewrite Hid.
  - destruct (random4 j) as [[[b0 b1] b2] b3].
    now apply toHex_valid.
  - now apply toHex_valid.
Qed.

End OnDisk.
End StoreFacts.

(** X19. The ids the store makes.  Whatever is on disk and whatever
    bytes are drawn, the new id is the hexadecimal text of the first of
    the ten four-byte draws whose directory does not exist yet, eight
    characters long; or, when all ten are taken, the text of the
    eight-byte draw, sixteen characters long, not checked against the
    disk.  Either way the id passes the store's own test of an id. *)
Theorem generateId_ids
  (DATA_DIR : string) (existsSync : string -> bool)
  (random4 : nat -> ascii * ascii * ascii * ascii) (random8 : list ascii) :
  List.length random8 = 8%nat ->
  let id := Store.generateId DATA_DIR existsSync random4 random8 in
  let try_ j := let '(b0, b1, b2, b3) := random4 j in
                Store.toHex [b0; b1; b2; b3] in
  Store.valid_id id = true /\
  ((String.length id = 8%nat /\
    existsSync (Store.join2 DATA_DIR id) = false /\
    exists j, (j < 10)%nat /\ id = try_ j /\
              forall k, (k < j)%nat ->
                        existsSync (Store.join2 DATA_DIR (try_ k)) = true)
   \/
   (String.length id = 16%nat /\ id = Store.toHex random8 /\
    forall k, (k < 10)%nat ->
              existsSync (Store.join2 DATA_DIR (try_ k)) = true)).
Proof.
  intro Hlen. cbv zeta. unfold Store.generateId.
  pose proof (StoreFacts.generateId_from_spec DATA_DIR existsSync
                random4 random8 10 0) as Hspec.
  cbv zeta in Hspec.
  destruct Hspec as [(j & Hj & Hid & Hfree & Hbefore) | [Hid Hall]].
  - assert (Hshape : exists b0 b1 b2 b3,
               Store.generateId_from DATA_DIR existsSync 10 0 random4 random8
               = Store.toHex [b0; b1; b2; b3]).
    { rewrite Hid. destruct (random4 j) as [[[b0 b1] b2] b3].
      now exists b0, b1, b2, b3. }
    destruct Hshape as (b0 & b1 & b2 & b3 & Hshape).
    split.
    + rewrite Hshape. now apply StoreFacts.toHex_valid.
    + left. split; [rewrite Hshape; reflexivity|].
      split; [exact Hfree|].
      exists j. split; [lia|]. split; [exact Hid|].
      intros k Hk. apply Hbefore. lia.
  - split.
    + rewrite Hid. apply StoreFacts.toHex_valid.
      intros ->. discriminate.
    + right. split; [rewrite Hid, StoreFacts.toHex_length, Hlen; reflexivity|].
      split; [exact Hid|].
      intros k Hk. apply Hall. lia.
Qed.

(** Run of X19: the first draw is taken, the second is free. *)
Lemma generateId_ids_witness :
  Store.generateId "/srv/data"
    (fun p => (p =? "/srv/data/0000ab09")%string)
    (fun i => (ascii_of_nat i, ascii_of_nat 0, ascii_of_nat 171,
               ascii_of_nat 9))
    (repeat (ascii_of_nat 255) 8)
  = "0100ab09".
Proof.
  destruct (generateId_ids "/srv/data"
              (fun p => (p =? "/srv/data/0000ab09")%string)
              (fun i => (ascii_of_nat i, ascii_of_nat 0, ascii_of_nat 171,
                         ascii_of_nat 9))
              (repeat (ascii_of_nat 255) 8) eq_refl)
    as [_ [(_ & _ & j & Hj & Hid & _) | (Hlen & _)]].
  - reflexivity.
  - vm_compute in Hlen. discriminate.
Defined.

(** X20. The guard in front of the file system.  An id is accepted only
    when it is not empty and made of the digits and of the letters a to
    f alone; for any other id, one with a slash or a dot among them,
    the store answers that the recording does not exist and that it has
    no video, whatever is on disk.  A video path is only ever
    the file recording.webm of an accepted id's own directory, and only
    when that file and the directory's metadata both exist.  Every id
    the store makes is accepted. *)
Theorem store_guard (DATA_DIR : string) (existsSync : string -> bool)
  (id : string) :
  (Store.valid_id id = true <->
   id <> EmptyString /\
   forall c, In c (list_ascii_of_string id) ->
             In c (list_ascii_of_string "0123456789abcdef"))
  /\
  (Store.valid_id id = false ->
   Store.exists_ DATA_DIR existsSync id = false /\
   Store.getVideoPath DATA_DIR existsSync id = None)
  /\
  (Address.has_char "/"%char id = true \/ Address.has_char "."%char id = true
   -> Store.valid_id id = false)
  /\
  (forall p, Store.getVideoPath DATA_DIR existsSync id = Some p ->
     p = (DATA_DIR ++ "/" ++ id ++ "/recording.webm")%string /\
     Store.valid_id id = true /\
     existsSync p = true /\
     existsSync (DATA_DIR ++ "/" ++ id ++ "/metadata.json")%string = true)
  /\
  (forall random4 random8, List.length random8 = 8%nat ->
     Store.valid_id
       (Store.generateId DATA_DIR existsSync random4 random8) = true).
Proof.
  assert (Hpath : forall name,
             Store.join2 (Store.join2 DATA_DIR id) name
             = (DATA_DIR ++ "/" ++ id ++ "/" ++ name)%string).
  { intro name. unfold Store.join2.
    now rewrite !RendererFacts.append_assoc. }
  split; [|split; [|split; [|split]]].
  - unfold Store.valid_id.
    rewrite andb_true_iff, negb_true_iff, String.eqb_neq.
    now rewrite StoreFacts.all_hex_chars.
  - intro Hbad. unfold Store.getVideoPath, Store.exists_.
    rewrite Hbad. split; reflexivity.
  - intro Hc. unfold Store.valid_id. apply andb_false_iff. right.
    apply not_true_is_false. intro Hall.
    assert (Hmem : forall c s, Address.has_char c s = true ->
                               Store.all_hex s = true ->
                               Store.is_hex c = true).
    { intros c s. induction s as [|x r IH]; simpl; [discriminate|].
      intros Hin Hh. apply andb_true_iff in Hh as [Hx Hr].
      apply orb_true_iff in Hin as [Heq | Hin]; [|now apply IH].
      apply Ascii.eqb_eq in Heq. now subst. }
    destruct Hc as [Hc | Hc]; specialize (Hmem _ _ Hc Hall); discriminate.
  - intros p Hp. unfold Store.getVideoPath, Store.exists_ in Hp.
    destruct (Store.valid_id id) eqn:Hv; cbn [negb] in Hp; [|discriminate].
    destruct (existsSync (Store.join2 (Store.join2 DATA_DIR id)
                                      "metadata.json")) eqn:Hm;
      cbn [negb] in Hp; [|discriminate].
    destruct (existsSync (Store.join2 (Store.join2 DATA_DIR id)
                                      "recording.webm")) eqn:Hw;
      cbn [negb] in Hp; [|discriminate].
    injection Hp as <-.
    rewrite Hpath in *. repeat split; auto.
  - intros random4 random8 Hlen.
    apply StoreFacts.generateId_valid. intros ->. discriminate.
Qed.

(** Run of X20: an id that tries to climb out of the data directory is
    turned away even if the path it names exists. *)
Lemma store_guard_witness :
  Store.exists_ "/srv/data" (fun _ => true) "../etc" = false /\
  Store.getVideoPath "/srv/data" (fun _ => true) "../etc" = None.
Proof.
  destruct (store_guard "/srv/data" (fun _ => true) "../etc")
    as (_ & Hbad & Hchar & _).
  apply Hbad. apply Hchar. left. reflexivity.
Defined.

(** X21. The played share of the scrub bar.  While the duration shown
    is not positive the share is 0.  Otherwise, for a current time that
    is not negative, it lies between 0 and 100 percent: the current
    time's share of the duration, and 100 percent once the current time
    has reached the duration.  The duration shown is the video's own
    when it is positive and the recorded one otherwise, whereas the
    markers are laid out over the recorded one when there is one. *)
Theorem played_share (knownDurationMs : option Q)
  (videoDuration currentTime : Q) :
  let shown := ScrubBar.displayDurationMs knownDurationMs videoDuration in
  (shown <= 0 -> ScrubBar.ratio currentTime shown = 0)
  /\
  (0 < shown -> 0 <= currentTime ->
   0 <= ScrubBar.ratio currentTime shown /\
   ScrubBar.ratio currentTime shown <= 100 /\
   (currentTime <= shown ->
    ScrubBar.ratio currentTime shown == currentTime / shown * 100) /\
   (shown <= currentTime -> ScrubBar.ratio currentTime shown == 100))
  /\
  (0 < videoDuration -> shown = videoDuration * 1000)
  /\
  (forall d, knownDurationMs = Some d -> ~ d == 0 ->
     ScrubBar.markerDurationMs knownDurationMs videoDuration = d /\
     (videoDuration <= 0 -> shown = d)).
Proof.
  cbv zeta.
  set (shown := ScrubBar.displayDurationMs knownDurationMs videoDuration).
  split; [|split; [|split]].
  - intro Hs. unfold ScrubBar.ratio.
    destruct (JS.Qlt_bool 0 shown) eqn:Hb; [|reflexivity].
    apply JSFacts.Qlt_bool_iff in Hb. lra.
  - intros Hs Hc. unfold ScrubBar.ratio.
    assert (Hb : JS.Qlt_bool 0 shown = true)
      by now apply JSFacts.Qlt_bool_iff.
    rewrite Hb.
    set (share := currentTime / shown * 100).
    assert (Hnn : 0 <= share)
      by now apply (ScrubFacts.share_sign currentTime shown Hs).
    assert (Hone : share <= 100 <-> currentTime <= shown).
    { unfold share. split; intro Hx.
      - assert (H1 : currentTime / shown <= 1).
        { apply Qmult_le_r with (z := 100); [reflexivity | lra]. }
        apply Qmult_le_r with (z := / shown);
          [now apply Qinv_lt_0_compat|].
        setoid_replace (shown * / shown) with 1 by (field; lra).
        exact H1.
      - assert (H1 : currentTime / shown <= 1)
          by (apply Qle_shift_div_r; [exact Hs | lra]).
        lra. }
    destruct (ScrubFacts.min2_spec share 100) as [[Hle ->] | [Hgt ->]].
    + split; [exact Hnn|]. split; [exact Hle|]. split.
      * intros _. reflexivity.
      * intro Hlate. apply Hone in Hle. unfold share.
        assert (Heq : currentTime == shown) by lra.
        rewrite Heq. field. lra.
    + split; [discriminate|]. split; [apply Qle_refl|]. split.
      * intro Hearly. apply Hone in Hearly. lra.
      * intros _. reflexivity.
  - intro Hv. subst shown. unfold ScrubBar.displayDurationMs.
    assert (Hb : JS.Qlt_bool 0 videoDuration = true)
      by now apply JSFacts.Qlt_bool_iff.
    now rewrite Hb.
  - intros d -> Hd.
    assert (Ht : JS.truthy_num (Some d) = true).
    { simpl. apply negb_true_iff. apply not_true_is_false.
      intro Hz. apply Qeq_bool_iff in Hz. contradiction. }
    split.
    + unfold ScrubBar.markerDurationMs. now rewrite Ht.
    + intro Hv. subst shown. unfold ScrubBar.displayDurationMs.
      assert (Hb : JS.Qlt_bool 0 videoDuration = false)
        by now apply JSFacts.Qlt_bool_false_iff.
      now rewrite Hb, Ht.
Qed.

(** Run of X21: half way through a recording of two seconds. *)
Lemma played_share_witness :
  ScrubBar.ratio 1000 (ScrubBar.displayDurationMs (Some 2000) 0) == 50.
Proof.
  pose proof (played_share (Some 2000) 0 1000) as Hp.
  cbv zeta in Hp. destruct Hp as (_ & Hpos & _).
  destruct Hpos as (_ & _ & Hshare & _); [reflexivity | discriminate |].
  rewrite Hshare; [reflexivity | discriminate].
Defined.
